(** * Eclo: generation orchestration, stderr demultiplexing and history store

    A shallow embedding of the Electron main process ([src/main/main.js]:
    the [generate-tts], [add-history-item], [get-history],
    [delete-history-item] and [clear-history] IPC handlers) and of the
    renderer's [EcloApp.generateTTS] / [EcloApp.updateGenerateButtonState],
    followed by the properties of the specification that concern them.

    JavaScript strings are sequences of UTF-16 code units; JSON values are a
    tree; a [try { ... } catch] block is a computation in an exception monad. *)

From Stdlib Require Import Ascii String DecimalString.
From Stdlib Require Import List NArith ZArith Bool Lia.
Import ListNotations.

Set Warnings "-register-all".

(* ================================================================== *)
(** * The JavaScript values and string operations the program uses     *)
(* ================================================================== *)

Module JS.

(** A JavaScript string: its UTF-16 code units. *)
Definition jsstring := list N.

(** An ASCII literal of the source, as code units. *)
Definition lit (s : string) : jsstring :=
  map N_of_ascii (list_ascii_of_string s).

(** A literal of the source that contains double quotes, written here with
    the apostrophe standing for the double quote. *)
Definition quoted (s : string) : jsstring :=
  map (fun c => if (c =? 39)%N then 34%N else c) (lit s).

Fixpoint str_eqb (a b : jsstring) : bool :=
  match a, b with
  | [], [] => true
  | x :: a', y :: b' => N.eqb x y && str_eqb a' b'
  | _, _ => false
  end.

(** WhiteSpace and LineTerminator code points, the set that
    [String.prototype.trim] strips. *)
Definition is_whitespace (c : N) : bool :=
  ((9 <=? c) && (c <=? 13) || (c =? 32) || (c =? 160) || (c =? 5760)
   || (8192 <=? c) && (c <=? 8202) || (c =? 8232) || (c =? 8233)
   || (c =? 8239) || (c =? 8287) || (c =? 12288) || (c =? 65279))%N.

Fixpoint trimStart (s : jsstring) : jsstring :=
  match s with
  | c :: r => if is_whitespace c then trimStart r else s
  | [] => []
  end.

Definition trimEnd (s : jsstring) : jsstring := rev (trimStart (rev s)).

(** [s.trim()] *)
Definition trim (s : jsstring) : jsstring := trimEnd (trimStart s).

(** [s.split('\n')] *)
Fixpoint split_lines (s : jsstring) : list jsstring :=
  match s with
  | [] => [[]]
  | c :: r =>
      if (c =? 10)%N then [] :: split_lines r
      else match split_lines r with
           | l :: ls => (c :: l) :: ls
           | [] => [[c]]
           end
  end.

(** [lines.join(sep)] *)
Fixpoint join (sep : jsstring) (ls : list jsstring) : jsstring :=
  match ls with
  | [] => []
  | [l] => l
  | l :: ls' => l ++ sep ++ join sep ls'
  end.

(** [s.startsWith(p)] *)
Fixpoint startsWith (p s : jsstring) : bool :=
  match p, s with
  | [], _ => true
  | x :: p', y :: s' => N.eqb x y && startsWith p' s'
  | _ :: _, [] => false
  end.

(** [s.includes(p)] *)
Fixpoint includes (p s : jsstring) : bool :=
  startsWith p s ||
  match s with
  | [] => false
  | _ :: s' => includes p s'
  end.

(** [\d] *)
Definition is_digit (c : N) : bool := ((48 <=? c) && (c <=? 57))%N.

Fixpoint skip_digits (s : jsstring) : jsstring :=
  match s with
  | c :: r => if is_digit c then skip_digits r else s
  | [] => []
  end.

(** [s.match(/^\d+%\|/)], as a truth value: one or more digits at the very
    start, then a percent sign, then a pipe. *)
Definition match_progress_bar (s : jsstring) : bool :=
  match s with
  | c :: r =>
      is_digit c &&
      match skip_digits r with
      | 37 :: 124 :: _ => true
      | _ => false
      end
  | [] => false
  end%N.

(** The value of a template substitution [${n}] for a non-negative integer
    below 2^53 such as [Date.now()]: its decimal digits. *)
Definition show_N (n : N) : jsstring :=
  lit (NilEmpty.string_of_uint (N.to_uint n)).

(** ** JSON values

    A number is kept as the decimal it was written as, [m * 10^e]. *)
Inductive json : Type :=
| JNull
| JBool (b : bool)
| JNum (m e : Z)
| JStr (s : jsstring)
| JArr (items : list json)
| JObj (members : list (jsstring * json)).

(** A JavaScript value that came from JSON, or [undefined] ([None]). *)
Definition value := option json.

Definition object := list (jsstring * json).

Fixpoint lookup (k : jsstring) (o : object) : value :=
  match o with
  | [] => None
  | (k', v) :: o' => if str_eqb k k' then Some v else lookup k o'
  end.

(** [o[k] = v]: an existing key keeps its place, a new one goes last. *)
Fixpoint obj_set (k : jsstring) (v : json) (o : object) : object :=
  match o with
  | [] => [(k, v)]
  | (k', v') :: o' =>
      if str_eqb k k' then (k, v) :: o' else (k', v') :: obj_set k v o'
  end.

(** ** Exceptions *)
Inductive exn := SyntaxError | TypeError.

Inductive completion (A : Type) : Type :=
| Normal (a : A)
| Throw (e : exn).
Arguments Normal {A} a.
Arguments Throw {A} e.

Definition bind {A B} (c : completion A) (k : A -> completion B)
  : completion B :=
  match c with
  | Normal a => k a
  | Throw e => Throw e
  end.

(** [try { body } catch (e) { handler }] *)
Declare Scope js_scope.
Delimit Scope js_scope with js.
Notation "x <- c ;; k" := (bind c (fun x => k))
  (at level 61, c at next level, right associativity) : js_scope.

Definition try_catch {A} (body : completion A) (handler : exn -> A) : A :=
  match body with
  | Normal a => a
  | Throw e => handler e
  end.

(** Whether the double nearest to [m * 10^e] is zero: the decimal is at most
    2^-1075, half the least subnormal (the tie rounds to even, to zero). *)
Definition num_is_zero (m e : Z) : bool :=
  ((m =? 0) || (e <? 0) && (Z.abs m * 2 ^ 1075 <=? 10 ^ (- e)))%Z.

(** ToBoolean *)
Definition truthy (v : value) : bool :=
  match v with
  | None => false
  | Some JNull => false
  | Some (JBool b) => b
  | Some (JNum m e) => negb (num_is_zero m e)
  | Some (JStr s) => match s with [] => false | _ => true end
  | Some (JArr _) => true
  | Some (JObj _) => true
  end.

Definition truthy_str (s : jsstring) : bool :=
  match s with [] => false | _ => true end.

(** [v.k] for one of the property names this program reads ([success],
    [error], [outputPath], [duration], [type], [data], [id]): none of them is
    on a built-in prototype, so only an object can have it, and reading a
    property of [null] throws. *)
Definition get_prop (v : json) (k : jsstring) : completion value :=
  match v with
  | JNull => Throw TypeError
  | JObj o => Normal (lookup k o)
  | _ => Normal None
  end.

(** [v === s] for a string [s] *)
Definition strict_eq_str (v : value) (s : jsstring) : bool :=
  match v with
  | Some (JStr t) => str_eqb t s
  | _ => false
  end.

(** [a || b] *)
Definition or_else (a : value) (b : json) : json :=
  match a with
  | Some x => if truthy a then x else b
  | None => b
  end.

Definition has_key (k : jsstring) (o : object) : bool :=
  match lookup k o with Some _ => true | None => false end.

(** Whether ToString throws on a value that came from JSON: an object with
    an own [toString] member has no callable conversion method left, and an
    array converts its elements. *)
Fixpoint toString_throws (v : json) : bool :=
  match v with
  | JObj o => has_key (lit "toString") o
  | JArr l => existsb toString_throws l
  | _ => false
  end.

(** A JavaScript number read from a form control: a decimal, or NaN. *)
Inductive number := Num (m e : Z) | NaN.

Definition number_truthy (x : number) : bool :=
  match x with
  | Num m e => negb (num_is_zero m e)
  | NaN => false
  end.

(** An [Error] object; its message is ToString of the constructor's
    argument, which for a string is the string itself. *)
Inductive error := Error (message : json).

(** [new Error(arg)] *)
Definition new_Error (arg : json) : completion error :=
  if toString_throws arg then Throw TypeError else Normal (Error arg).

End JS.

(* ================================================================== *)
(** * [JSON.parse]                                                     *)
(* ================================================================== *)

(** The host's [JSON.parse], after the JSON grammar: a lexer that reads one
    code unit at a time, then a pushdown parser over the tokens. Both are
    structural, so parsing is total: it returns a value or throws
    [SyntaxError]. *)
Module JSON.
Import JS.

Inductive token :=
| TLBrace | TRBrace | TLBrack | TRBrack | TColon | TComma
| TString (s : jsstring)
| TNumber (m e : Z)
| TTrue | TFalse | TNull.

(** Where the lexer is inside a number: an optional minus; a zero, or a
    non-zero digit and more digits; optionally a point and digits;
    optionally e or E, a sign and digits. *)
Inductive numstate :=
| NMinus | NZero | NInt | NDot | NFrac | NE | NESign | NExp.

Record numacc := {
  neg : bool;      (* a leading minus *)
  mant : N;        (* the digits read, point removed *)
  scale : N;       (* how many of them follow the point *)
  eneg : bool;     (* a minus in the exponent *)
  expo : N         (* the exponent's digits *)
}.

Inductive lstate :=
| LDefault
| LStr (acc : jsstring)                      (* inside a string, reversed *)
| LEsc (acc : jsstring)                      (* after a backslash *)
| LUni (acc : jsstring) (n : nat) (v : N)    (* n hex digits of \u read *)
| LNum (ns : numstate) (a : numacc)
| LWord (t : token) (rest : jsstring).       (* inside true, false, null *)

Definition num_token (a : numacc) : token :=
  let m := Z.of_N (mant a) in
  let x := Z.of_N (expo a) in
  TNumber (if neg a then - m else m)
          ((if eneg a then - x else x) - Z.of_N (scale a))%Z.

Definition num_accepting (ns : numstate) : bool :=
  match ns with
  | NZero | NInt | NFrac | NExp => true
  | _ => false
  end.

Definition hex_digit (c : N) : option N :=
  (if (48 <=? c) && (c <=? 57) then Some (c - 48)
   else if (65 <=? c) && (c <=? 70) then Some (c - 55)
   else if (97 <=? c) && (c <=? 102) then Some (c - 87)
   else None)%N.

Definition num0 (ng : bool) (d : N) : numacc :=
  {| neg := ng; mant := d; scale := 0; eneg := false; expo := 0 |}.

(** A code unit read between tokens. *)
Definition lex_default (c : N) : option (lstate * list token) :=
  (if (c =? 9) || (c =? 10) || (c =? 13) || (c =? 32) then Some (LDefault, [])
   else if c =? 123 then Some (LDefault, [TLBrace])
   else if c =? 125 then Some (LDefault, [TRBrace])
   else if c =? 91 then Some (LDefault, [TLBrack])
   else if c =? 93 then Some (LDefault, [TRBrack])
   else if c =? 58 then Some (LDefault, [TColon])
   else if c =? 44 then Some (LDefault, [TComma])
   else if c =? 34 then Some (LStr [], [])
   else if c =? 45 then Some (LNum NMinus (num0 true 0), [])
   else if c =? 48 then Some (LNum NZero (num0 false 0), [])
   else if is_digit c then Some (LNum NInt (num0 false (c - 48)), [])
   else if c =? 116 then Some (LWord TTrue (lit "rue"), [])
   else if c =? 102 then Some (LWord TFalse (lit "alse"), [])
   else if c =? 110 then Some (LWord TNull (lit "ull"), [])
   else None)%N.

(** A code unit that cannot continue the number: the number ends if it is
    complete, and the unit is read again between tokens. *)
Definition num_end (ns : numstate) (a : numacc) (c : N)
  : option (lstate * list token) :=
  if num_accepting ns then
    match lex_default c with
    | Some (st, ts) => Some (st, num_token a :: ts)
    | None => None
    end
  else None.

Definition is_e (c : N) : bool := ((c =? 101) || (c =? 69))%N.

Definition lex_num (ns : numstate) (a : numacc) (c : N)
  : option (lstate * list token) :=
  let d := (c - 48)%N in
  let push_int :=
    {| neg := neg a; mant := mant a * 10 + d; scale := scale a;
       eneg := eneg a; expo := expo a |}%N in
  let push_frac :=
    {| neg := neg a; mant := mant a * 10 + d; scale := scale a + 1;
       eneg := eneg a; expo := expo a |}%N in
  let push_exp :=
    {| neg := neg a; mant := mant a; scale := scale a;
       eneg := eneg a; expo := expo a * 10 + d |}%N in
  let exp_minus :=
    {| neg := neg a; mant := mant a; scale := scale a;
       eneg := true; expo := expo a |} in
  match ns with
  | NMinus =>
      if (c =? 48)%N then Some (LNum NZero a, [])
      else if is_digit c then Some (LNum NInt push_int, [])
      else None
  | NZero =>
      if (c =? 46)%N then Some (LNum NDot a, [])
      else if is_e c then Some (LNum NE a, [])
      else num_end ns a c
  | NInt =>
      if is_digit c then Some (LNum NInt push_int, [])
      else if (c =? 46)%N then Some (LNum NDot a, [])
      else if is_e c then Some (LNum NE a, [])
      else num_end ns a c
  | NDot =>
      if is_digit c then Some (LNum NFrac push_frac, []) else None
  | NFrac =>
      if is_digit c then Some (LNum NFrac push_frac, [])
      else if is_e c then Some (LNum NE a, [])
      else num_end ns a c
  | NE =>
      if (c =? 43)%N then Some (LNum NESign a, [])
      else if (c =? 45)%N then Some (LNum NESign exp_minus, [])
      else if is_digit c then Some (LNum NExp push_exp, [])
      else None
  | NESign =>
      if is_digit c then Some (LNum NExp push_exp, []) else None
  | NExp =>
      if is_digit c then Some (LNum NExp push_exp, [])
      else num_end ns a c
  end.

Definition lex_escape (acc : jsstring) (c : N) : option (lstate * list token) :=
  (if c =? 34 then Some (LStr (34 :: acc), [])
   else if c =? 92 then Some (LStr (92 :: acc), [])
   else if c =? 47 then Some (LStr (47 :: acc), [])
   else if c =? 98 then Some (LStr (8 :: acc), [])
   else if c =? 102 then Some (LStr (12 :: acc), [])
   else if c =? 110 then Some (LStr (10 :: acc), [])
   else if c =? 114 then Some (LStr (13 :: acc), [])
   else if c =? 116 then Some (LStr (9 :: acc), [])
   else if c =? 117 then Some (LUni acc 0 0, [])
   else None)%N.

Definition lex_step (st : lstate) (c : N) : option (lstate * list token) :=
  match st with
  | LDefault => lex_default c
  | LStr acc =>
      if (c =? 34)%N then Some (LDefault, [TString (rev acc)])
      else if (c =? 92)%N then Some (LEsc acc, [])
      else if (c <? 32)%N then None
      else Some (LStr (c :: acc), [])
  | LEsc acc => lex_escape acc c
  | LUni acc n v =>
      match hex_digit c with
      | Some d =>
          let v' := (v * 16 + d)%N in
          if Nat.eqb n 3 then Some (LStr (v' :: acc), [])
          else Some (LUni acc (S n) v', [])
      | None => None
      end
  | LNum ns a => lex_num ns a c
  | LWord t rest =>
      match rest with
      | x :: rest' =>
          if (c =? x)%N then
            match rest' with
            | [] => Some (LDefault, [t])
            | _ => Some (LWord t rest', [])
            end
          else None
      | [] => None
      end
  end.

(** The end of the input. *)
Definition lex_end (st : lstate) : option (list token) :=
  match st with
  | LDefault => Some []
  | LNum ns a => if num_accepting ns then Some [num_token a] else None
  | _ => None
  end.

Fixpoint lex_from (st : lstate) (s : jsstring) : option (list token) :=
  match s with
  | [] => lex_end st
  | c :: r =>
      match lex_step st c with
      | Some (st', ts) =>
          match lex_from st' r with
          | Some ts' => Some (ts ++ ts')
          | None => None
          end
      | None => None
      end
  end.

Definition lex (s : jsstring) : option (list token) := lex_from LDefault s.

(** ** The parser *)

(** An open array with its elements so far (reversed), or an open object
    with its members so far and the key waiting for its value. *)
Inductive frame :=
| FArr (acc : list json)
| FObj (acc : object) (key : option jsstring).

Inductive mode :=
| MValue      (* a value *)
| MArrStart   (* a value or ] *)
| MObjStart   (* a key or } *)
| MKey        (* a key *)
| MColon      (* : *)
| MAfter      (* , or the closing bracket *)
| MDone (v : json).

(** A value is complete: it is the result, or goes into the open container.
    A repeated key overwrites the earlier member. *)
Definition push_value (v : json) (stack : list frame)
  : option (mode * list frame) :=
  match stack with
  | [] => Some (MDone v, [])
  | FArr acc :: st => Some (MAfter, FArr (v :: acc) :: st)
  | FObj acc (Some k) :: st => Some (MAfter, FObj (obj_set k v acc) None :: st)
  | FObj _ None :: _ => None
  end.

Definition parse_value_token (t : token) (stack : list frame)
  : option (mode * list frame) :=
  match t with
  | TString s => push_value (JStr s) stack
  | TNumber m e => push_value (JNum m e) stack
  | TTrue => push_value (JBool true) stack
  | TFalse => push_value (JBool false) stack
  | TNull => push_value JNull stack
  | TLBrack => Some (MArrStart, FArr [] :: stack)
  | TLBrace => Some (MObjStart, FObj [] None :: stack)
  | _ => None
  end.

Definition parse_key (t : token) (stack : list frame)
  : option (mode * list frame) :=
  match t, stack with
  | TString k, FObj acc _ :: st => Some (MColon, FObj acc (Some k) :: st)
  | _, _ => None
  end.

Definition parse_close (t : token) (stack : list frame)
  : option (mode * list frame) :=
  match t, stack with
  | TRBrack, FArr acc :: st => push_value (JArr (rev acc)) st
  | TRBrace, FObj acc None :: st => push_value (JObj acc) st
  | _, _ => None
  end.

Definition parse_step (m : mode) (stack : list frame) (t : token)
  : option (mode * list frame) :=
  match m with
  | MValue => parse_value_token t stack
  | MArrStart =>
      match t with
      | TRBrack => parse_close t stack
      | _ => parse_value_token t stack
      end
  | MObjStart =>
      match t with
      | TRBrace => parse_close t stack
      | _ => parse_key t stack
      end
  | MKey => parse_key t stack
  | MColon =>
      match t with
      | TColon => Some (MValue, stack)
      | _ => None
      end
  | MAfter =>
      match t, stack with
      | TComma, FArr _ :: _ => Some (MValue, stack)
      | TComma, FObj _ _ :: _ => Some (MKey, stack)
      | _, _ => parse_close t stack
      end
  | MDone _ => None
  end.

Fixpoint parse_from (m : mode) (stack : list frame) (ts : list token)
  : completion json :=
  match ts with
  | [] =>
      match m with
      | MDone v => Normal v
      | _ => Throw SyntaxError
      end
  | t :: ts' =>
      match parse_step m stack t with
      | Some (m', stack') => parse_from m' stack' ts'
      | None => Throw SyntaxError
      end
  end.

(** [JSON.parse(s)] *)
Definition parse (s : jsstring) : completion json :=
  match lex s with
  | Some ts => parse_from MValue [] ts
  | None => Throw SyntaxError
  end.

End JSON.


(* ================================================================== *)
(** * The main process ([src/main/main.js])                            *)
(* ================================================================== *)

Module Main.
Import JS.

(** What the handlers take from Node and Electron. *)
Class Host := {
  (** [path.join(a, b)] *)
  path_join : jsstring -> jsstring -> jsstring;
  (** [String(x)] of a number *)
  number_toString : number -> jsstring;
  (** the interpreter and the script of lines 184-190 *)
  pythonPath : jsstring;
  scriptPath : jsstring;
  (** [voicesDir] of the [get-voice-sample-path] handler *)
  voicesDir : jsstring
}.

(** The keys of the settings store that the handlers read and write;
    [historyItems] may be missing. *)
Record store := {
  ttsModel : jsstring;
  outputFormat : jsstring;
  outputPath : jsstring;
  historyItems : option (list object)
}.

(** The [options] argument of [generate-tts]. *)
Record options := {
  text : jsstring;
  language : jsstring;
  voiceSamplePath : option jsstring;
  referenceText : option jsstring;
  instructText : option jsstring;
  speed : number
}.

Record spawn_call := {
  command : jsstring;
  args : list jsstring
}.

(** What the child process does, as the handler observes it: the chunks of
    its two streams and its exit code ([None] when a signal ended it). *)
Record child := {
  stdout_data : list jsstring;
  stderr_data : list jsstring;
  exit_code : option Z
}.

(** The promise's settlement: [resolve(result)] or [reject(error)]. *)
Inductive outcome :=
| Resolve (result : json)
| Reject (e : error).

(** The two things the stderr handler builds up: the [stderr] text and the
    payloads sent on [tts-progress], oldest first. *)
Record stderr_state := {
  stderr : jsstring;
  sent : list value
}.

Definition generic_failure : jsstring := lit "TTS generation failed".

(** [if (x)] for an optional string *)
Definition given (x : option jsstring) : bool :=
  match x with
  | Some s => truthy_str s
  | None => false
  end.

Definition flag (name : string) (x : option jsstring) : list jsstring :=
  match x with
  | Some s => if truthy_str s then [lit name; s] else []
  | None => []
  end.

Section Handlers.
Context {host : Host}.

(** line 180 *)
Definition outputFile (st : store) (now : N) : jsstring :=
  path_join (outputPath st)
            (lit "eclo_" ++ show_N now ++ lit "." ++ outputFormat st).

(** lines 192-212 *)
Definition spawn_tts (st : store) (now : N) (o : options) : spawn_call :=
  {| command := pythonPath;
     args :=
       [scriptPath;
        lit "--action"; lit "generate";
        lit "--text"; text o;
        lit "--language"; language o;
        lit "--model"; ttsModel st;
        lit "--output"; outputFile st now;
        lit "--speed";
        number_toString (if number_truthy (speed o) then speed o else Num 1 0)]
       ++ flag "--ref-audio" (voiceSamplePath o)
       ++ flag "--ref-text" (referenceText o)
       ++ flag "--instruct" (instructText o) |}.

(** lines 216-218 *)
Definition stdout_on_data (stdout data : jsstring) : jsstring :=
  stdout ++ data.

(** lines 223-233, the body of the loop. [mainWindow] tells whether the
    window exists. *)
Definition stderr_on_line (mainWindow : bool) (s : stderr_state)
  (line : jsstring) : stderr_state :=
  if truthy_str (trim line) then
    try_catch
      (parsed <- JSON.parse line ;;
       type <- get_prop parsed (lit "type") ;;
       if strict_eq_str type (lit "progress") && mainWindow then
         data <- get_prop parsed (lit "data") ;;
         Normal {| stderr := stderr s; sent := sent s ++ [data] |}
       else Normal s)%js
      (fun _ => {| stderr := stderr s ++ line ++ [10%N]; sent := sent s |})
  else s.

(** lines 220-235 *)
Definition stderr_on_data (mainWindow : bool) (s : stderr_state)
  (data : jsstring) : stderr_state :=
  fold_left (stderr_on_line mainWindow) (split_lines data) s.

(** lines 259-267, the filter's predicate *)
Definition keep_error_line (line : jsstring) : bool :=
  let trimmed := trim line in
  truthy_str trimmed &&
  negb (startsWith (lit "Fetching") trimmed) &&
  negb (startsWith (lit "Downloading") trimmed) &&
  negb (includes (lit "tokenizer") trimmed) &&
  negb (includes (lit "FutureWarning") trimmed) &&
  negb (includes (lit "UserWarning") trimmed) &&
  negb (match_progress_bar trimmed).

(** lines 259-268 *)
Definition errorLines (stderr : jsstring) : jsstring :=
  trim (join [10%N] (filter keep_error_line (split_lines stderr))).

(** lines 237-272, the [close] handler *)
Definition on_close (outputFile stdout stderr : jsstring) (code : option Z)
  : outcome :=
  try_catch
    (result <- JSON.parse (trim stdout) ;;
     success <- get_prop result (lit "success") ;;
     if truthy success then Normal (Resolve result)
     else
       error <- get_prop result (lit "error") ;;
       e <- new_Error (or_else error (JStr generic_failure)) ;;
       Normal (Reject e))%js
    (fun _ =>
       match code with
       | Some 0%Z =>
           Resolve (JObj [(lit "success", JBool true);
                          (lit "outputPath", JStr outputFile)])
       | _ =>
           let errorLines := errorLines stderr in
           Reject (Error (JStr (if truthy_str errorLines then errorLines
                                else generic_failure)))
       end).

(** lines 174-274: the [generate-tts] handler, run against a child process.
    It gives the spawn, the progress payloads sent, and the settlement. *)
Definition generate_tts (st : store) (now : N) (mainWindow : bool)
  (o : options) (proc : child) : spawn_call * list value * outcome :=
  let stdout := fold_left stdout_on_data (stdout_data proc) [] in
  let err :=
    fold_left (stderr_on_data mainWindow) (stderr_data proc)
              {| stderr := []; sent := [] |} in
  (spawn_tts st now o, sent err,
   on_close (outputFile st now) stdout (stderr err) (exit_code proc)).

(** lines 289-295 *)
Definition get_voice_sample_path (voiceId : jsstring) : jsstring :=
  path_join voicesDir (voiceId ++ lit ".wav").

End Handlers.

(** ** History *)

(** [store.get('historyItems') || []], lines 427-429 *)
Definition get_history (st : store) : list object :=
  match historyItems st with
  | Some history => history
  | None => []
  end.

Definition set_history (st : store) (history : list object) : store :=
  {| ttsModel := ttsModel st; outputFormat := outputFormat st;
     outputPath := outputPath st; historyItems := Some history |}.

(** lines 413-417. [now] is [Date.now()], [rnd] is
    [Math.random().toString(36).substr(2, 9)] and [iso] is
    [new Date().toISOString()]. *)
Definition new_item (now : N) (rnd iso : jsstring) (item : object) : object :=
  obj_set (lit "timestamp") (JStr iso)
    (obj_set (lit "id") (JStr (show_N now ++ lit "-" ++ rnd)) item).

(** lines 411-425 *)
Definition add_history_item (st : store) (now : N) (rnd iso : jsstring)
  (item : object) : store * object :=
  let history := get_history st in
  let newItem := new_item now rnd iso item in
  let history := newItem :: history in
  let history :=
    if (100 <? length history)%nat then removelast history else history in
  (set_history st history, newItem).

(** lines 431-436; [id] is the string the renderer read from the entry. *)
Definition delete_history_item (st : store) (id : jsstring) : store * bool :=
  let history := get_history st in
  let filtered :=
    filter (fun item => negb (strict_eq_str (lookup (lit "id") item) id))
           history in
  (set_history st filtered, true).

(** lines 438-441 *)
Definition clear_history (st : store) : store * bool :=
  (set_history st [], true).

End Main.

(* ================================================================== *)
(** * The renderer ([EcloApp])                                         *)
(* ================================================================== *)

Module Renderer.
Import JS.

Record capabilities := {
  voiceCloning : bool;
  presetVoices : bool;
  speedControl : bool;
  styleInstruction : bool;
  languageSelection : bool;
  referenceText : bool
}.

Inductive voice_type := preset | custom.

(** [this.selectedVoice] when it is not [null] *)
Record voice := {
  type : voice_type;
  id : jsstring;
  name : jsstring;
  path : jsstring
}.

Record preset_voice := {
  preset_id : jsstring;
  preset_name : jsstring;
  langCode : jsstring;
  refText : jsstring
}.

(** The fields of the application object that generation reads. *)
Record EcloApp := {
  selectedVoice : option voice;
  currentModelCapabilities : option capabilities;
  preset_table : list preset_voice
}.

(** The form controls that generation reads; [tts_speed] is
    [parseFloat] of the slider. *)
Record form := {
  tts_text : jsstring;
  tts_language : jsstring;
  tts_speed : number;
  tts_style : jsstring;
  custom_ref_text : jsstring
}.

(** lines 481-490 *)
Definition presetVoices_table : list preset_voice :=
  [ {| preset_id := lit "korean_female"; preset_name := lit "Sora";
       langCode := lit "ko";
       refText := [50504; 45397; 54616; 49464; 50836; 44; 32; 47564; 45208;
                   49436; 32; 48152; 44049; 49845; 45768; 45796; 46]%N |};
    {| preset_id := lit "korean_male"; preset_name := lit "Minho";
       langCode := lit "ko";
       refText := [50504; 45397; 54616; 49464; 50836; 44; 32; 51200; 45716;
                   32; 48124; 54840; 51077; 45768; 45796; 46]%N |};
    {| preset_id := lit "english_female"; preset_name := lit "Emma";
       langCode := lit "en"; refText := lit "Hello, nice to meet you." |};
    {| preset_id := lit "english_male"; preset_name := lit "James";
       langCode := lit "en"; refText := lit "Hello, my name is James." |};
    {| preset_id := lit "japanese_female"; preset_name := lit "Yuki";
       langCode := lit "ja";
       refText := [12371; 12435; 12395; 12385; 12399; 12289; 12399; 12376;
                   12417; 12414; 12375; 12390; 12290]%N |};
    {| preset_id := lit "japanese_male"; preset_name := lit "Kenji";
       langCode := lit "ja";
       refText := [12371; 12435; 12395; 12385; 12399; 12289; 20581; 20108;
                   12391; 12377; 12290]%N |};
    {| preset_id := lit "chinese_female"; preset_name := lit "Mei";
       langCode := lit "zh";
       refText := [20320; 22909; 65292; 24456; 39640; 20852; 35748; 35782;
                   20320; 12290]%N |};
    {| preset_id := lit "chinese_male"; preset_name := lit "Wei";
       langCode := lit "zh";
       refText := [20320; 22909; 65292; 25105; 21483; 23567; 20255;
                   12290]%N |} ].

(** lines 826-829 *)
Definition getPresetReferenceText (app : EcloApp) (voiceId : jsstring)
  : option jsstring :=
  match find (fun v => str_eqb (preset_id v) voiceId) (preset_table app) with
  | Some v => Some (refText v)
  | None => None
  end.

(** [s || null] *)
Definition or_null (s : jsstring) : option jsstring :=
  if truthy_str s then Some s else None.

(** lines 831-843: the value given to the button's [disabled]. *)
Definition updateGenerateButtonState (app : EcloApp) (f : form) : bool :=
  let caps := currentModelCapabilities app in
  let requiresVoice :=
    match caps with
    | Some c => voiceCloning c || presetVoices c
    | None => false
    end in
  let hasVoice :=
    match selectedVoice app with Some _ => true | None => false end in
  let hasText := (0 <? length (trim (tts_text f)))%nat in
  if negb requiresVoice then negb hasText
  else negb (hasVoice && hasText).

(** What [generateTTS] does first: it alerts and returns, or it calls
    [generate-tts] with these options. *)
Inductive request :=
| Alert (message : jsstring)
| Invoke (o : Main.options).

(** The result of one click: nothing was started, or the main process ran
    the handler. *)
Inductive generation :=
| NotStarted (alert : jsstring)
| Started (call : Main.spawn_call) (progress : list value)
          (o : Main.outcome).

Section Generate.
Context {host : Main.Host}.

(** lines 930-971 *)
Definition generateTTS_request (app : EcloApp) (f : form) : request :=
  let text := trim (tts_text f) in
  if negb (truthy_str text) then Alert (lit "Please enter text to convert")
  else
    match selectedVoice app with
    | None => Alert (lit "Please select a voice")
    | Some v =>
        let style := trim (tts_style f) in
        let '(voiceSamplePath, referenceText) :=
          match type v with
          | preset =>
              (Main.get_voice_sample_path (id v),
               getPresetReferenceText app (id v))
          | custom => (path v, or_null (trim (custom_ref_text f)))
          end in
        Invoke {| Main.text := text;
                  Main.language := tts_language f;
                  Main.speed := tts_speed f;
                  Main.voiceSamplePath := Some voiceSamplePath;
                  Main.referenceText := referenceText;
                  Main.instructText := or_null style |}
    end.

(** [generateTTS] up to the settlement of the [generate-tts] call, with the
    main process on the other side. *)
Definition generateTTS (app : EcloApp) (f : form) (st : Main.store)
  (now : N) (mainWindow : bool) (proc : Main.child) : generation :=
  match generateTTS_request app f with
  | Alert m => NotStarted m
  | Invoke o =>
      let '(call, progress, out) :=
        Main.generate_tts st now mainWindow o proc in
      Started call progress out
  end.

End Generate.

(** The processes a generation spawned. *)
Definition spawned (g : generation) : list Main.spawn_call :=
  match g with
  | NotStarted _ => []
  | Started call _ _ => [call]
  end.

End Renderer.

(* ================================================================== *)
(** * The vocabulary of the specification                              *)
(* ================================================================== *)

Module Spec.
Import JS.

(** The field [k] that a JSON value carries, if any. *)
Definition member (k : string) (v : json) : value :=
  match v with
  | JObj o => lookup (lit k) o
  | _ => None
  end.

(** [Success{outputFilePath, durationSeconds?}]: the promise resolved with a
    value whose success flag is set; the path and the duration are what the
    renderer reads from it, [result.outputPath] and [result.duration]. *)
Definition Success (o : Main.outcome) (outputPath duration : value) : Prop :=
  exists result,
    o = Main.Resolve result /\
    truthy (member "success" result) = true /\
    member "outputPath" result = outputPath /\
    member "duration" result = duration.

(** [Failure{errorMessage}]: the promise rejected with an [Error] that has
    this message. *)
Definition Failure (o : Main.outcome) (message : jsstring) : Prop :=
  o = Main.Reject (Error (JStr message)).

(** The full stdout buffer and the diagnostic text of a process. *)
Definition stdout_buffer (proc : Main.child) : jsstring :=
  concat (Main.stdout_data proc).

Definition diagnostic_text (mainWindow : bool) (proc : Main.child)
  : jsstring :=
  Main.stderr (fold_left (Main.stderr_on_data mainWindow)
                 (Main.stderr_data proc)
                 {| Main.stderr := []; Main.sent := [] |}).

Definition outcome_of {A B} (r : A * B * Main.outcome) : Main.outcome :=
  snd r.

Definition progress_of {A} (r : A * list value * Main.outcome) : list value :=
  snd (fst r).

(** ** Lines of the stderr stream *)

Definition blank (line : jsstring) : Prop := trim line = [].

Definition is_json (line : jsstring) : bool :=
  match JSON.parse line with
  | Normal _ => true
  | Throw _ => false
  end.

(** A line that is not blank and is not JSON. *)
Definition diagnostic (line : jsstring) : bool :=
  truthy_str (trim line) && negb (is_json line).

(** The payload of a line that is JSON tagged as progress. *)
Definition progress_data (line : jsstring) : option value :=
  if truthy_str (trim line) then
    match JSON.parse line with
    | Normal v =>
        if strict_eq_str (member "type" v) (lit "progress")
        then Some (member "data" v) else None
    | Throw _ => None
    end
  else None.

Definition progress_events (lines : list jsstring) : list value :=
  flat_map (fun l => match progress_data l with
                     | Some d => [d]
                     | None => []
                     end) lines.

Definition with_newlines (lines : list jsstring) : jsstring :=
  concat (map (fun l => l ++ [10%N]) lines).

(** ** Diagnostic noise *)

Definition digits (ds : jsstring) : Prop :=
  Forall (fun c => (48 <= c <= 57)%N) ds.

Definition starts_with (p : string) (t : jsstring) : Prop :=
  exists r, t = lit p ++ r.

Definition contains (p : string) (t : jsstring) : Prop :=
  exists a b, t = a ++ lit p ++ b.

(** One or more digits, a percent sign, a pipe, and anything after. *)
Definition progress_bar (t : jsstring) : Prop :=
  exists ds r, ds <> [] /\ digits ds /\ t = ds ++ lit "%|" ++ r.

Definition noise (t : jsstring) : Prop :=
  starts_with "Fetching" t \/ starts_with "Downloading" t \/
  contains "tokenizer" t \/ contains "FutureWarning" t \/
  contains "UserWarning" t \/ progress_bar t.

(** ** History *)

(** One call of [add-history-item]: the clock, the random suffix, the
    timestamp and the item. *)
Record append_call := {
  at_ms : N;
  suffix : jsstring;
  stamp : jsstring;
  summary : object
}.

Definition entry_of (c : append_call) : object :=
  Main.new_item (at_ms c) (suffix c) (stamp c) (summary c).

Definition append (st : Main.store) (c : append_call) : Main.store :=
  fst (Main.add_history_item st (at_ms c) (suffix c) (stamp c) (summary c)).

Definition append_all (st : Main.store) (cs : list append_call) : Main.store :=
  fold_left append cs st.

Definition has_id (id : jsstring) (item : object) : Prop :=
  lookup (lit "id") item = Some (JStr id).

End Spec.

(* ================================================================== *)
(** * Sample data, to run the model                                    *)
(* ================================================================== *)

Module Sample.
Import JS.

(** A host to run the handlers on: [path.join] as it acts on a directory
    with no trailing slash and a plain file name, and [String(x)] as it acts
    on a non-negative integer (no example depends on it elsewhere). *)
Definition host : Main.Host :=
  {| Main.path_join := fun a b => a ++ lit "/" ++ b;
     Main.number_toString := fun x =>
       match x with
       | Num m 0 => show_N (Z.to_N m)
       | _ => lit "NaN"
       end;
     Main.pythonPath := lit "python3";
     Main.scriptPath := lit "/app/src/python/tts_service.py";
     Main.voicesDir := lit "/app/assets/voices" |}.

Definition settings : Main.store :=
  {| Main.ttsModel := lit "mlx-community/Kokoro-82M-MLX";
     Main.outputFormat := lit "wav";
     Main.outputPath := lit "/out";
     Main.historyItems := Some [] |}.

Definition options : Main.options :=
  {| Main.text := lit "Hello";
     Main.language := lit "en";
     Main.voiceSamplePath := None;
     Main.referenceText := None;
     Main.instructText := None;
     Main.speed := Num 1 0 |}.

Definition process (stdout : list jsstring) (stderr : list jsstring)
  (code : Z) : Main.child :=
  {| Main.stdout_data := stdout; Main.stderr_data := stderr;
     Main.exit_code := Some code |}.

(** The capabilities of Kokoro 82M, lines 137-144. *)
Definition kokoro : Renderer.capabilities :=
  {| Renderer.voiceCloning := false;
     Renderer.presetVoices := false;
     Renderer.speedControl := true;
     Renderer.styleInstruction := false;
     Renderer.languageSelection := true;
     Renderer.referenceText := false |}.

(** The capabilities of OuteTTS, lines 122-129. *)
Definition outetts : Renderer.capabilities :=
  {| Renderer.voiceCloning := true;
     Renderer.presetVoices := true;
     Renderer.speedControl := false;
     Renderer.styleInstruction := false;
     Renderer.languageSelection := true;
     Renderer.referenceText := true |}.

Definition app (caps : Renderer.capabilities) : Renderer.EcloApp :=
  {| Renderer.selectedVoice := None;
     Renderer.currentModelCapabilities := Some caps;
     Renderer.preset_table := Renderer.presetVoices_table |}.

Definition form (text : jsstring) : Renderer.form :=
  {| Renderer.tts_text := text;
     Renderer.tts_language := lit "en";
     Renderer.tts_speed := Num 1 0;
     Renderer.tts_style := [];
     Renderer.custom_ref_text := [] |}.

(** The n-th of a run of history appends. *)
Definition call (n : nat) : Spec.append_call :=
  {| Spec.at_ms := 1704067200000 + N.of_nat n;
     Spec.suffix := lit "k3j9x0a1b";
     Spec.stamp := lit "2024-01-01T00:00:00.000Z";
     Spec.summary := [(lit "text", JStr (show_N (N.of_nat n)))] |}.

Definition calls (n : nat) : list Spec.append_call := map call (seq 0 n).

End Sample.


(** Concrete runs of the handlers on the sample data. *)
Module Runs.
Import JS.

Definition now : N := 1704067200000.

Definition run (proc : Main.child) :=
  Main.generate_tts (host := Sample.host) Sample.settings now true
    Sample.options proc.

Definition precomputed : jsstring :=
  Main.outputFile (host := Sample.host) Sample.settings now.

Definition click (app : Renderer.EcloApp) (f : Renderer.form) :=
  Renderer.generateTTS (host := Sample.host) app f Sample.settings now true
    (Sample.process [] [] 0).

Definition full_result : jsstring :=
  quoted "{'success':true,'outputPath':'/tmp/a.wav','duration':3.2}".

Definition bare_success : jsstring := quoted "{'success':true}".

Definition progress_line (percent : string) : jsstring :=
  quoted "{'type':'progress','data':{'percent':" ++ lit percent ++
  quoted ",'message':'working'}}".

Definition progress_payload (percent : Z) : value :=
  Some (JObj [(lit "percent", JNum percent 0);
              (lit "message", JStr (lit "working"))]).

Definition log_line : jsstring := quoted "{'type':'log'}".

(** Two progress lines around a line of plain text, in one chunk. *)
Definition interleaved : jsstring :=
  progress_line "10" ++ [10%N] ++ lit "some plain text" ++ [10%N] ++
  progress_line "50" ++ [10%N].

Definition noisy : jsstring :=
  lit "Fetching model..." ++ [10%N] ++
  lit "45%|" ++ [9608; 9608; 9608; 9608; 10]%N ++
  lit "real error: disk full" ++ [10%N].

Definition full_store : Main.store :=
  Spec.append_all Sample.settings (Sample.calls 100).

End Runs.

(* ================================================================== *)
(** * More of the program: the engine table, the session, the ledger   *)
(* ================================================================== *)

(** The engine descriptors of [get-available-models] and the renderer's
    choice of the current capabilities. *)
Module Registry.
Import JS.

(** One item of the list of lines 100-161. *)
Record model := {
  id : jsstring;
  name : jsstring;
  size : jsstring;
  languages : list jsstring;
  description : jsstring;
  capabilities : Renderer.capabilities
}.

Definition caps (voiceCloning presetVoices speedControl styleInstruction
                 languageSelection referenceText : bool)
  : Renderer.capabilities :=
  {| Renderer.voiceCloning := voiceCloning;
     Renderer.presetVoices := presetVoices;
     Renderer.speedControl := speedControl;
     Renderer.styleInstruction := styleInstruction;
     Renderer.languageSelection := languageSelection;
     Renderer.referenceText := referenceText |}.

Definition cosyvoice_id : jsstring :=
  lit "mlx-community/Fun-CosyVoice3-0.5B-2512-fp16".
Definition outetts_id : jsstring := lit "mlx-community/OuteTTS-0.2-500M-MLX".
Definition kokoro_id : jsstring := lit "mlx-community/Kokoro-82M-MLX".

(** lines 99-162 *)
Definition available_models : list model :=
  [ {| id := cosyvoice_id;
       name := lit "CosyVoice3 0.5B (Recommended)";
       size := lit "~1GB";
       languages := map lit ["zh"; "en"; "ja"; "ko"; "de"; "es"; "fr"; "it";
                             "ru"]%string;
       description := lit "High quality multilingual TTS with voice cloning";
       capabilities := caps true true true true true true |};
    {| id := outetts_id;
       name := lit "OuteTTS 0.2 500M";
       size := lit "~500MB";
       languages := map lit ["en"; "zh"; "ja"; "ko"]%string;
       description := lit "Lightweight and fast TTS model";
       capabilities := caps true true false false true true |};
    {| id := kokoro_id;
       name := lit "Kokoro 82M";
       size := lit "~100MB";
       languages := map lit ["en"; "ja"]%string;
       description := lit "Ultra lightweight model for basic TTS";
       capabilities := caps false false true false true false |};
    {| id := lit "custom";
       name := lit "Custom Model";
       size := lit "Variable";
       languages := [];
       description := lit "Use a custom MLX model path";
       capabilities := caps true true true true true true |} ].

(** lines 571-580: the capabilities of the model whose id is the setting,
    or the full set when no model has it. *)
Definition updateCurrentModelCapabilities (availableModels : list model)
  (ttsModel : jsstring) : Renderer.capabilities :=
  match find (fun m => str_eqb (id m) ttsModel) availableModels with
  | Some currentModel => capabilities currentModel
  | None => caps true true true true true true
  end.

(** line 833 *)
Definition requiresVoice (c : Renderer.capabilities) : bool :=
  Renderer.voiceCloning c || Renderer.presetVoices c.

End Registry.

(** What a session does around a generation: choosing a voice, and
    recording the result. *)
Module Session.
Import JS.

(** [s.split(sep)] for a separator of one code unit. *)
Fixpoint split_on (sep : N) (s : jsstring) : list jsstring :=
  match s with
  | [] => [[]]
  | c :: r =>
      if (c =? sep)%N then [] :: split_on sep r
      else match split_on sep r with
           | l :: ls => (c :: l) :: ls
           | [] => [[c]]
           end
  end.

Definition with_voice (app : Renderer.EcloApp) (v : option Renderer.voice)
  : Renderer.EcloApp :=
  {| Renderer.selectedVoice := v;
     Renderer.currentModelCapabilities :=
       Renderer.currentModelCapabilities app;
     Renderer.preset_table := Renderer.preset_table app |}.

(** lines 750-775, what it does to the application object (it also sets
    the language control to the voice's language code). *)
Definition selectPresetVoice (app : Renderer.EcloApp)
  (voice : Renderer.preset_voice) : Renderer.EcloApp :=
  with_voice app
    (Some {| Renderer.type := Renderer.preset;
             Renderer.id := Renderer.preset_id voice;
             Renderer.name := Renderer.preset_name voice;
             Renderer.path :=
               lit "voices/" ++ Renderer.preset_id voice ++ lit ".wav" |}).

(** lines 777-799; [filePath.split('/').pop()] is the last piece. *)
Definition selectCustomVoice (app : Renderer.EcloApp) (filePath : jsstring)
  : Renderer.EcloApp :=
  let fileName := last (split_on 47 filePath) [] in
  with_voice app
    (Some {| Renderer.type := Renderer.custom;
             Renderer.id := lit "custom";
             Renderer.name := fileName;
             Renderer.path := filePath |}).

(** line 981: [text.substring(0, 100) + (text.length > 100 ? '...' : '')] *)
Definition preview (text : jsstring) : jsstring :=
  firstn 100 text ++ (if (100 <? length text)%nat then lit "..." else []).





Section Click.
Context {host : Main.Host}.


End Click.

End Session.

(** The history handlers as a ledger of operations. *)
Module Ledger.
Import JS.

Inductive op :=
| Add (c : Spec.append_call)
| Delete (id : jsstring)
| Clear.

Definition step (st : Main.store) (o : op) : Main.store :=
  match o with
  | Add c => Spec.append st c
  | Delete id => fst (Main.delete_history_item st id)
  | Clear => fst (Main.clear_history st)
  end.

Definition run (st : Main.store) (ops : list op) : Main.store :=
  fold_left step ops st.

(** An entry as [add-history-item] makes them: its id and its timestamp
    are strings. *)
Definition stamped (item : object) : Prop :=
  (exists id, lookup (lit "id") item = Some (JStr id)) /\
  (exists t, lookup (lit "timestamp") item = Some (JStr t)).

Definition id_of (item : object) : value := lookup (lit "id") item.

End Ledger.

(** More concrete runs, for the further properties. *)
Module MoreRuns.
Import JS.

Definition stale_item : object :=
  [(lit "id", JStr (lit "stale")); (lit "text", JStr (lit "hi"))].

Definition three : Main.store :=
  Spec.append_all Sample.settings (Sample.calls 3).

Definition id_of_call (n : nat) : jsstring :=
  show_N (Spec.at_ms (Sample.call n)) ++ lit "-" ++
  Spec.suffix (Sample.call n).

Definition ops : list Ledger.op :=
  [Ledger.Add (Sample.call 0); Ledger.Add (Sample.call 1);
   Ledger.Delete (id_of_call 0); Ledger.Clear; Ledger.Add (Sample.call 2)].

Definition reported : jsstring :=
  quoted "{'success':false,'error':'reference audio required'}".

Definition noisy_with_json : jsstring :=
  Runs.noisy ++ Runs.log_line ++ [10%N].

Definition two_chunks : list jsstring :=
  [Runs.progress_line "10" ++ [10%N]; lit "some plain text" ++ [10%N]].

Definition empty_state : Main.stderr_state :=
  {| Main.stderr := []; Main.sent := [] |}.

Definition voiced : Renderer.EcloApp :=
  Session.selectCustomVoice (Sample.app Sample.outetts)
    (lit "/home/me/voices/sample.wav").

Definition padded : Renderer.form := Sample.form (lit "  Hello ").

Definition long_text : jsstring := repeat 97%N 150.

Definition sora : Renderer.preset_voice :=
  {| Renderer.preset_id := lit "korean_female";
     Renderer.preset_name := lit "Sora";
     Renderer.langCode := lit "ko";
     Renderer.refText :=
       [50504; 45397; 54616; 49464; 50836; 44; 32; 47564; 45208; 49436; 32;
        48152; 44049; 49845; 45768; 45796; 46]%N |}.


End MoreRuns.

(** The lines that the stderr handler's [catch] receives. *)
Module Demux.
Import JS.

(** What the [try] of lines 224-228 does before it sends anything: it
    parses the line and reads [.type] of what it parsed. *)
Definition read_type (line : jsstring) : completion value :=
  (parsed <- JSON.parse line ;; get_prop parsed (lit "type"))%js.

(** A line that is appended to the diagnostic text: it is not blank, and
    parsing it or reading its type throws. *)
Definition appended (line : jsstring) : bool :=
  truthy_str (trim line) &&
  match read_type line with
  | Throw _ => true
  | Normal _ => false
  end.

End Demux.

(* ================================================================== *)
(** * Properties                                                       *)
(* ================================================================== *)

Import JS.

(** ** Strings *)

Lemma str_eqb_eq (a b : jsstring) : str_eqb a b = true <-> a = b.
Proof.
  revert b; induction a as [|x a IH]; intros [|y b]; simpl;
    try (split; [discriminate | discriminate]); try tauto.
  rewrite andb_true_iff, N.eqb_eq, IH.
  split; [intros [-> ->]; reflexivity | intros [= -> ->]; auto].
Qed.

Lemma str_eqb_refl (a : jsstring) : str_eqb a a = true.
Proof. apply str_eqb_eq; reflexivity. Qed.

Lemma truthy_str_false (s : jsstring) : truthy_str s = false <-> s = [].
Proof. destruct s; simpl; split; congruence. Qed.

Lemma truthy_str_true (s : jsstring) : truthy_str s = true <-> s <> [].
Proof. destruct s; simpl; split; congruence. Qed.

Lemma startsWith_spec (p s : jsstring) :
  startsWith p s = true <-> exists r, s = p ++ r.
Proof.
  revert s; induction p as [|x p IH]; intros s; simpl.
  - split; [eauto | reflexivity].
  - destruct s as [|y s].
    + split; [discriminate | intros [r Hr]; discriminate].
    + rewrite andb_true_iff, N.eqb_eq, IH. split.
      * intros [-> [r ->]]. eauto.
      * intros [r [= -> ->]]. eauto.
Qed.

Lemma includes_spec (p s : jsstring) :
  includes p s = true <-> exists a b, s = a ++ p ++ b.
Proof.
  induction s as [|c s IH].
  - simpl. rewrite orb_false_r, startsWith_spec. split.
    + intros [r Hr]. exists [], r. exact Hr.
    + intros (a & b & H). symmetry in H.
      apply app_eq_nil in H as [-> H]. simpl in H.
      apply app_eq_nil in H as [-> ->]. exists []. reflexivity.
  - cbn [includes]. rewrite orb_true_iff, startsWith_spec, IH. split.
    + intros [[r Hr] | (a & b & ->)].
      * exists [], r. exact Hr.
      * exists (c :: a), b. reflexivity.
    + intros ([|x a] & b & H).
      * left. exists b. exact H.
      * right. injection H as _ ->. eauto.
Qed.

Lemma is_digit_spec (c : N) : is_digit c = true <-> (48 <= c <= 57)%N.
Proof.
  unfold is_digit. rewrite andb_true_iff, !N.leb_le. tauto.
Qed.

Lemma skip_digits_app (ds r : jsstring) :
  Spec.digits ds -> skip_digits (ds ++ 37%N :: r) = 37%N :: r.
Proof.
  induction 1 as [|c ds Hc _ IH]; simpl.
  - reflexivity.
  - apply is_digit_spec in Hc. rewrite Hc. exact IH.
Qed.

Lemma skip_digits_split (s : jsstring) :
  exists ds, Spec.digits ds /\ s = ds ++ skip_digits s.
Proof.
  induction s as [|c s (ds & Hds & Hs)]; simpl.
  - exists []. split; [constructor | reflexivity].
  - destruct (is_digit c) eqn:Hc.
    + exists (c :: ds). split.
      * constructor; [apply is_digit_spec; exact Hc | exact Hds].
      * simpl. congruence.
    + exists []. split; [constructor | reflexivity].
Qed.

Lemma match_progress_bar_spec (s : jsstring) :
  match_progress_bar s = true <-> Spec.progress_bar s.
Proof.
  unfold Spec.progress_bar. split.
  - destruct s as [|c s]; simpl; [discriminate|].
    rewrite andb_true_iff. intros [Hc H].
    destruct (skip_digits_split s) as (ds & Hds & Hs).
    destruct (skip_digits s) as [|x [|y r]] eqn:E; try discriminate.
    + destruct x as [|x]; [discriminate|].
      repeat (destruct x as [x|x|]; try discriminate).
    + assert (x = 37%N /\ y = 124%N) as [-> ->].
      { destruct x as [|x]; [discriminate|].
        repeat (destruct x as [x|x|]; try discriminate).
        destruct y as [|y]; [discriminate|].
        repeat (destruct y as [y|y|]; try discriminate).
        split; reflexivity. }
      exists (c :: ds), r. split; [discriminate|]. split.
      * constructor; [apply is_digit_spec; exact Hc | exact Hds].
      * simpl. rewrite Hs at 1. reflexivity.
  - intros (ds & r & Hne & Hds & ->).
    destruct ds as [|c ds]; [congruence|].
    inversion Hds as [|? ? Hc Hds']; subst. simpl.
    apply is_digit_spec in Hc. rewrite Hc.
    change (lit "%|" ++ r) with (37%N :: 124%N :: r).
    rewrite skip_digits_app by exact Hds'. reflexivity.
Qed.

(** The filter of the close handler keeps exactly the lines that are not
    blank and are not noise once trimmed. *)
Lemma keep_error_line_spec (line : jsstring) :
  Main.keep_error_line line = true <->
  trim line <> [] /\ ~ Spec.noise (trim line).
Proof.
  unfold Main.keep_error_line, Spec.noise, Spec.starts_with, Spec.contains.
  rewrite !andb_true_iff, !negb_true_iff, truthy_str_true.
  rewrite <- !not_true_iff_false.
  rewrite !startsWith_spec, !includes_spec, match_progress_bar_spec.
  tauto.
Qed.

(** ** The stdout buffer *)

Lemma stdout_fold (chunks : list jsstring) (acc : jsstring) :
  fold_left Main.stdout_on_data chunks acc = acc ++ concat chunks.
Proof.
  revert acc; induction chunks as [|c chunks IH]; intros acc; simpl.
  - rewrite app_nil_r. reflexivity.
  - rewrite IH. unfold Main.stdout_on_data. rewrite app_assoc. reflexivity.
Qed.

Lemma truthy_member_get_prop (k : string) (v : json) :
  truthy (Spec.member k v) = true ->
  get_prop v (lit k) = Normal (Spec.member k v).
Proof.
  destruct v; simpl; try discriminate. reflexivity.
Qed.

Section Outcome.
Context {host : Main.Host}.
Variables (st : Main.store) (now : N) (mainWindow : bool) (o : Main.options).

Local Abbreviation run proc := (Main.generate_tts st now mainWindow o proc).

Lemma outcome_of_run (proc : Main.child) :
  Spec.outcome_of (run proc) =
  Main.on_close (Main.outputFile st now) (Spec.stdout_buffer proc)
    (Spec.diagnostic_text mainWindow proc) (Main.exit_code proc).
Proof.
  unfold Main.generate_tts, Spec.outcome_of, Spec.stdout_buffer. simpl.
  rewrite stdout_fold. reflexivity.
Qed.

(** The close handler on a parsed value whose success flag is truthy. *)
Lemma on_close_success (outputFile stdout stderr : jsstring)
  (code : option Z) (result : json) :
  JSON.parse (trim stdout) = Normal result ->
  truthy (Spec.member "success" result) = true ->
  Main.on_close outputFile stdout stderr code = Main.Resolve result.
Proof.
  intros Hparse Hflag. unfold Main.on_close. rewrite Hparse. simpl.
  rewrite (truthy_member_get_prop "success" result Hflag). simpl.
  rewrite Hflag. reflexivity.
Qed.

(** The close handler when [JSON.parse] throws. *)
Lemma on_close_unparsed (outputFile stdout stderr : jsstring)
  (code : option Z) (e : exn) :
  JSON.parse (trim stdout) = Throw e ->
  Main.on_close outputFile stdout stderr code =
  match code with
  | Some 0%Z =>
      Main.Resolve (JObj [(lit "success", JBool true);
                          (lit "outputPath", JStr outputFile)])
  | _ =>
      Main.Reject
        (Error (JStr (if truthy_str (Main.errorLines stderr)
                      then Main.errorLines stderr
                      else Main.generic_failure)))
  end.
Proof.
  intros Hparse. unfold Main.on_close. rewrite Hparse. reflexivity.
Qed.

(** The close handler on a parsed value other than [null] whose success
    flag is falsy or absent, when the error field converts to a string. *)
Lemma on_close_reported_failure (outputFile stdout stderr : jsstring)
  (code : option Z) (result : json) :
  JSON.parse (trim stdout) = Normal result ->
  result <> JNull ->
  truthy (Spec.member "success" result) = false ->
  toString_throws
    (or_else (Spec.member "error" result) (JStr Main.generic_failure))
  = false ->
  Main.on_close outputFile stdout stderr code =
  Main.Reject
    (Error (or_else (Spec.member "error" result)
                    (JStr Main.generic_failure))).
Proof.
  intros Hparse Hnull Hflag Hstr. unfold Main.on_close. rewrite Hparse.
  destruct result; try congruence; simpl in *;
    unfold new_Error; simpl; try reflexivity.
  rewrite Hflag. simpl. unfold new_Error. rewrite Hstr. reflexivity.
Qed.

(** C1. Whenever the trimmed stdout buffer parses as a JSON value with a
    truthy success flag, the generation resolves with that very value, so it
    is a Success whose output path and duration are the value's fields,
    whatever the exit code (and whatever came on stderr). In particular the
    buffer [{"success":true,"outputPath":"/tmp/a.wav","duration":3.2}] gives
    Success with path [/tmp/a.wav] and duration 3.2 for any exit code. *)
Theorem C1_structured_success_beats_exit_code :
  (forall (proc : Main.child) (result : json),
      JSON.parse (trim (Spec.stdout_buffer proc)) = Normal result ->
      truthy (Spec.member "success" result) = true ->
      Spec.outcome_of (run proc) = Main.Resolve result /\
      Spec.Success (Spec.outcome_of (run proc))
                   (Spec.member "outputPath" result)
                   (Spec.member "duration" result)) /\
  (forall (stderr : list jsstring) (code : option Z),
      Spec.Success
        (Spec.outcome_of
           (run {| Main.stdout_data :=
                     [quoted "{'success':true,'outputPath':'/tmp/a.wav','duration':3.2}"];
                   Main.stderr_data := stderr;
                   Main.exit_code := code |}))
        (Some (JStr (lit "/tmp/a.wav")))
        (Some (JNum 32 (-1)))).
Proof.
  assert (G : forall (proc : Main.child) (result : json),
      JSON.parse (trim (Spec.stdout_buffer proc)) = Normal result ->
      truthy (Spec.member "success" result) = true ->
      Spec.outcome_of (run proc) = Main.Resolve result /\
      Spec.Success (Spec.outcome_of (run proc))
                   (Spec.member "outputPath" result)
                   (Spec.member "duration" result)).
  { intros proc result Hparse Hflag.
    assert (E : Spec.outcome_of (run proc) = Main.Resolve result).
    { rewrite outcome_of_run. apply on_close_success; assumption. }
    split; [exact E|]. exists result. auto. }
  split; [exact G|].
  intros stderr code.
  apply (G _ (JObj [(lit "success", JBool true);
                     (lit "outputPath", JStr (lit "/tmp/a.wav"));
                     (lit "duration", JNum 32 (-1))]));
    reflexivity.
Qed.

(** C2, at the inputs where the code departs from it. When the trimmed
    stdout buffer parses as a JSON value with a truthy success flag and
    without an output-path field, the generation resolves with the parsed
    value as it is: the Success outcome has no output path, where the claim
    has the precomputed path that the handler gave the child as [--output]
    and that the fallback of line 256 resolves with. *)
Theorem C2_success_without_path_has_no_path :
  forall (proc : Main.child) (result : json),
    JSON.parse (trim (Spec.stdout_buffer proc)) = Normal result ->
    truthy (Spec.member "success" result) = true ->
    Spec.member "outputPath" result = None ->
    Spec.outcome_of (run proc) = Main.Resolve result /\
    Spec.Success (Spec.outcome_of (run proc)) None
                 (Spec.member "duration" result) /\
    (forall path duration,
        Spec.Success (Spec.outcome_of (run proc)) path duration ->
        path = None).
Proof.
  intros proc result Hparse Hflag Hpath.
  assert (E : Spec.outcome_of (run proc) = Main.Resolve result).
  { rewrite outcome_of_run. apply on_close_success; assumption. }
  split; [exact E|]. split.
  - exists result. auto.
  - intros path duration (r & Hr & _ & Hp & _).
    rewrite E in Hr. injection Hr as <-. congruence.
Qed.

(** C3. Whenever parsing the trimmed stdout buffer fails and the exit code
    is 0, the generation is a Success that carries the precomputed output
    file path, [<outputPath>/eclo_<now>.<outputFormat>] as [path.join] makes
    it, and no duration. An empty stdout is such a buffer. *)
Theorem C3_unparsed_stdout_exit_zero_succeeds :
  (forall (proc : Main.child) (e : exn),
      JSON.parse (trim (Spec.stdout_buffer proc)) = Throw e ->
      Main.exit_code proc = Some 0%Z ->
      Spec.Success (Spec.outcome_of (run proc))
                   (Some (JStr (Main.outputFile st now))) None) /\
  (forall stderr : list jsstring,
      Spec.Success
        (Spec.outcome_of (run {| Main.stdout_data := [];
                                 Main.stderr_data := stderr;
                                 Main.exit_code := Some 0%Z |}))
        (Some (JStr (Main.outputFile st now))) None) /\
  Main.outputFile st now =
  Main.path_join (Main.outputPath st)
    (lit "eclo_" ++ show_N now ++ lit "." ++ Main.outputFormat st).
Proof.
  assert (G : forall (proc : Main.child) (e : exn),
      JSON.parse (trim (Spec.stdout_buffer proc)) = Throw e ->
      Main.exit_code proc = Some 0%Z ->
      Spec.Success (Spec.outcome_of (run proc))
                   (Some (JStr (Main.outputFile st now))) None).
  { intros proc e Hparse Hcode.
    rewrite outcome_of_run, (on_close_unparsed _ _ _ _ _ Hparse), Hcode.
    eexists. split; [reflexivity|]. repeat split. }
  split; [exact G|]. split; [|reflexivity].
  intros stderr. apply (G _ SyntaxError); reflexivity.
Qed.

(** A value other than [null] whose success flag is falsy or absent and that
    has no error field fails with the generic message. *)
Lemma reported_failure_generic (proc : Main.child) (result : json) :
  JSON.parse (trim (Spec.stdout_buffer proc)) = Normal result ->
  result <> JNull ->
  truthy (Spec.member "success" result) = false ->
  Spec.member "error" result = None ->
  Spec.Failure (Spec.outcome_of (run proc)) (lit "TTS generation failed").
Proof.
  intros Hparse Hnull Hflag Herr. unfold Spec.Failure.
  rewrite outcome_of_run.
  rewrite (on_close_reported_failure _ _ _ _ _ Hparse Hnull Hflag);
    rewrite Herr; reflexivity.
Qed.

(** C10, at the input where the code departs from it. The stdout buffer
    [null] parses as a JSON value that has no success flag and no error
    field, yet with exit code 0 the generation resolves as a Success with
    the precomputed path: reading [result.success] of [null] throws inside
    the [try], and the [catch] meant for unparseable stdout takes over. *)
Theorem C10_null_stdout_exit_zero_resolves :
  forall stderr : list jsstring,
    let proc := {| Main.stdout_data := [lit "null"];
                   Main.stderr_data := stderr;
                   Main.exit_code := Some 0%Z |} in
    JSON.parse (trim (Spec.stdout_buffer proc)) = Normal JNull /\
    Spec.member "success" JNull = None /\
    Spec.member "error" JNull = None /\
    Spec.outcome_of (run proc) =
    Main.Resolve (JObj [(lit "success", JBool true);
                        (lit "outputPath", JStr (Main.outputFile st now))]) /\
    Spec.Success (Spec.outcome_of (run proc))
                 (Some (JStr (Main.outputFile st now))) None.
Proof.
  intros stderr proc.
  assert (E : Spec.outcome_of (run proc) =
    Main.Resolve (JObj [(lit "success", JBool true);
                        (lit "outputPath", JStr (Main.outputFile st now))])).
  { rewrite outcome_of_run. reflexivity. }
  repeat split; try reflexivity; try exact E.
  eexists. split; [exact E|]. repeat split.
Qed.

(** C7. When parsing the trimmed stdout buffer fails and the exit code is
    not 0, the generation fails with the diagnostic text filtered: its lines
    that are blank or, once trimmed, start with [Fetching] or [Downloading],
    contain [tokenizer], [FutureWarning] or [UserWarning], or begin with
    digits, a percent sign and a pipe are dropped, and the others are joined
    with newlines and trimmed (the generic message stands in for an empty
    result). In particular empty stdout, exit code 1 and the stderr lines
    [Fetching model...], [45%|####] (four full blocks) and
    [real error: disk full], in one chunk or one chunk per line, fail with
    exactly [real error: disk full]. *)
Theorem C7_failure_message_filters_noise :
  (forall (proc : Main.child) (e : exn),
      JSON.parse (trim (Spec.stdout_buffer proc)) = Throw e ->
      Main.exit_code proc <> Some 0%Z ->
      let lines := split_lines (Spec.diagnostic_text mainWindow proc) in
      exists kept,
        (forall l, In l kept <->
                   In l lines /\ trim l <> [] /\ ~ Spec.noise (trim l)) /\
        kept = filter Main.keep_error_line lines /\
        Spec.Failure (Spec.outcome_of (run proc))
          (if truthy_str (trim (join [10%N] kept))
           then trim (join [10%N] kept)
           else lit "TTS generation failed")) /\
  (let l1 := lit "Fetching model..." in
   let l2 := lit "45%|" ++ [9608; 9608; 9608; 9608]%N in
   let l3 := lit "real error: disk full" in
   forall chunks,
     chunks = [l1 ++ [10%N] ++ l2 ++ [10%N] ++ l3 ++ [10%N]] \/
     chunks = [l1 ++ [10%N]; l2 ++ [10%N]; l3 ++ [10%N]] ->
     Spec.Failure
       (Spec.outcome_of (run {| Main.stdout_data := [];
                                Main.stderr_data := chunks;
                                Main.exit_code := Some 1%Z |}))
       (lit "real error: disk full")).
Proof.
  split.
  - intros proc e Hparse Hcode lines.
    exists (filter Main.keep_error_line lines). split; [|split].
    + intros l. rewrite filter_In, keep_error_line_spec. tauto.
    + reflexivity.
    + unfold Spec.Failure.
      rewrite outcome_of_run, (on_close_unparsed _ _ _ _ _ Hparse).
      destruct (Main.exit_code proc) as [[| |]|]; try reflexivity.
      congruence.
  - intros l1 l2 l3 chunks [-> | ->]; unfold Spec.Failure;
      rewrite outcome_of_run; vm_compute; reflexivity.
Qed.

End Outcome.

(** ** The stderr demultiplexer *)

Lemma diagnostic_spec (line : jsstring) :
  Spec.diagnostic line = true <->
  ~ Spec.blank line /\ exists e, JSON.parse line = Throw e.
Proof.
  unfold Spec.diagnostic, Spec.is_json, Spec.blank.
  rewrite andb_true_iff, truthy_str_true.
  destruct (JSON.parse line) as [v|e]; simpl.
  - split; [intros [_ H]; discriminate | intros [_ [e H]]; discriminate].
  - split; [intros [H _]; eauto | tauto].
Qed.

Lemma progress_data_spec (line : jsstring) (d : value) :
  Spec.progress_data line = Some d <->
  ~ Spec.blank line /\
  exists v, JSON.parse line = Normal v /\
            Spec.member "type" v = Some (JStr (lit "progress")) /\
            d = Spec.member "data" v.
Proof.
  unfold Spec.progress_data, Spec.blank.
  destruct (truthy_str (trim line)) eqn:Hb.
  - apply truthy_str_true in Hb.
    destruct (JSON.parse line) as [v|e].
    + destruct (strict_eq_str (Spec.member "type" v) (lit "progress")) eqn:Ht.
      * assert (Hty : Spec.member "type" v = Some (JStr (lit "progress"))).
        { unfold strict_eq_str in Ht.
          destruct (Spec.member "type" v) as [[| | | t | |]|];
            try discriminate.
          apply str_eqb_eq in Ht. congruence. }
        split.
        -- intros [= <-]. split; [exact Hb|]. exists v. auto.
        -- intros [_ (v' & [= <-] & _ & ->)]. reflexivity.
      * split; [discriminate|].
        intros [_ (v' & [= <-] & Hty & _)].
        rewrite Hty in Ht. unfold strict_eq_str in Ht.
        rewrite str_eqb_refl in Ht. discriminate.
    + split; [discriminate | intros [_ (v & H & _)]; discriminate].
  - apply truthy_str_false in Hb.
    split; [discriminate | tauto].
Qed.

(** One turn of the loop, for a line that does not parse to [null]. *)
Lemma stderr_on_line_spec (mainWindow : bool) (s : Main.stderr_state)
  (line : jsstring) :
  JSON.parse line <> Normal JNull ->
  Main.stderr_on_line mainWindow s line =
  {| Main.stderr :=
       Main.stderr s ++ Spec.with_newlines (filter Spec.diagnostic [line]);
     Main.sent :=
       Main.sent s ++
       (if mainWindow then Spec.progress_events [line] else []) |}.
Proof.
  intros Hnull.
  unfold Main.stderr_on_line, Spec.progress_events, Spec.progress_data,
    Spec.with_newlines, Spec.diagnostic, Spec.is_json.
  simpl.
  destruct (truthy_str (trim line)); simpl.
  - destruct (JSON.parse line) as [v|e]; simpl.
    + assert (Hget : forall k, get_prop v (lit k) = Normal (Spec.member k v)).
      { intros k. destruct v; try reflexivity. congruence. }
      rewrite (Hget "type"%string). simpl.
      destruct (strict_eq_str (Spec.member "type" v) (lit "progress")); simpl.
      * destruct mainWindow; simpl.
        -- rewrite (Hget "data"%string). simpl. rewrite !app_nil_r. reflexivity.
        -- rewrite !app_nil_r. destruct s; reflexivity.
      * destruct mainWindow; rewrite !app_nil_r; destruct s; reflexivity.
    + destruct mainWindow; rewrite !app_nil_r; reflexivity.
  - destruct mainWindow; rewrite !app_nil_r; destruct s; reflexivity.
Qed.

Lemma with_newlines_app (a b : list jsstring) :
  Spec.with_newlines (a ++ b) = Spec.with_newlines a ++ Spec.with_newlines b.
Proof.
  unfold Spec.with_newlines. rewrite map_app, concat_app. reflexivity.
Qed.

Lemma progress_events_app (a b : list jsstring) :
  Spec.progress_events (a ++ b) =
  Spec.progress_events a ++ Spec.progress_events b.
Proof.
  unfold Spec.progress_events. apply flat_map_app.
Qed.

(** The loop over a list of lines. *)
Lemma stderr_lines_spec (mainWindow : bool) (lines : list jsstring) :
  forall s : Main.stderr_state,
    Forall (fun l => JSON.parse l <> Normal JNull) lines ->
    fold_left (Main.stderr_on_line mainWindow) lines s =
    {| Main.stderr :=
         Main.stderr s ++ Spec.with_newlines (filter Spec.diagnostic lines);
       Main.sent :=
         Main.sent s ++
         (if mainWindow then Spec.progress_events lines else []) |}.
Proof.
  induction lines as [|l lines IH]; intros s Hall.
  - simpl. destruct mainWindow; rewrite !app_nil_r; destruct s; reflexivity.
  - inversion Hall as [|? ? Hl Hrest]; subst.
    cbn [fold_left]. rewrite (IH _ Hrest).
    rewrite (stderr_on_line_spec _ _ _ Hl). cbn [Main.stderr Main.sent].
    change (l :: lines) with ([l] ++ lines).
    rewrite filter_app, with_newlines_app, progress_events_app.
    rewrite <- !app_assoc.
    destruct mainWindow; [reflexivity|]. rewrite !app_nil_r. reflexivity.
Qed.

(** The handler over the chunks of the stream. *)
Lemma stderr_chunks_spec (mainWindow : bool) (chunks : list jsstring) :
  forall s : Main.stderr_state,
    Forall (fun l => JSON.parse l <> Normal JNull)
           (flat_map split_lines chunks) ->
    fold_left (Main.stderr_on_data mainWindow) chunks s =
    {| Main.stderr :=
         Main.stderr s ++
         Spec.with_newlines
           (filter Spec.diagnostic (flat_map split_lines chunks));
       Main.sent :=
         Main.sent s ++
         (if mainWindow
          then Spec.progress_events (flat_map split_lines chunks)
          else []) |}.
Proof.
  induction chunks as [|c chunks IH]; intros s Hall.
  - simpl. destruct mainWindow; rewrite !app_nil_r; destruct s; reflexivity.
  - cbn [flat_map] in Hall. apply Forall_app in Hall as [Hc Hrest].
    cbn [fold_left flat_map]. rewrite (IH _ Hrest).
    unfold Main.stderr_on_data at 1 2.
    rewrite (stderr_lines_spec _ _ _ Hc). cbn [Main.stderr Main.sent].
    rewrite filter_app, with_newlines_app, progress_events_app.
    rewrite <- !app_assoc.
    destruct mainWindow; [reflexivity|]. rewrite !app_nil_r. reflexivity.
Qed.

(** One turn of the loop, for any line. *)
Lemma stderr_on_line_exact (mainWindow : bool) (s : Main.stderr_state)
  (line : jsstring) :
  Main.stderr_on_line mainWindow s line =
  {| Main.stderr :=
       Main.stderr s ++ Spec.with_newlines (filter Demux.appended [line]);
     Main.sent :=
       Main.sent s ++
       (if mainWindow then Spec.progress_events [line] else []) |}.
Proof.
  unfold Main.stderr_on_line, Spec.progress_events, Spec.progress_data,
    Spec.with_newlines, Demux.appended, Demux.read_type.
  cbn [filter flat_map map concat].
  destruct (truthy_str (trim line)); cbn [andb].
  - destruct (JSON.parse line) as [v|e]; cbn [bind try_catch].
    + destruct v as [| b | m e | t | items | members];
        cbn [get_prop bind try_catch Spec.member strict_eq_str andb
             map concat app];
        try solve [destruct mainWindow; cbn [map concat app];
                   rewrite ?app_nil_r; try (destruct s); reflexivity].
      destruct (strict_eq_str (lookup (lit "type") members)
                              (lit "progress"));
        destruct mainWindow;
        cbn [andb bind try_catch map concat app];
        rewrite ?app_nil_r; try (destruct s; reflexivity); reflexivity.
    + destruct mainWindow; cbn [map concat app]; rewrite ?app_nil_r;
        reflexivity.
  - destruct mainWindow; rewrite ?app_nil_r; destruct s; reflexivity.
Qed.

(** The loop over any list of lines. *)
Lemma stderr_lines_exact (mainWindow : bool) (lines : list jsstring) :
  forall s : Main.stderr_state,
    fold_left (Main.stderr_on_line mainWindow) lines s =
    {| Main.stderr :=
         Main.stderr s ++ Spec.with_newlines (filter Demux.appended lines);
       Main.sent :=
         Main.sent s ++
         (if mainWindow then Spec.progress_events lines else []) |}.
Proof.
  induction lines as [|l lines IH]; intros s.
  - simpl. destruct mainWindow; rewrite !app_nil_r; destruct s; reflexivity.
  - cbn [fold_left]. rewrite IH, stderr_on_line_exact.
    cbn [Main.stderr Main.sent].
    change (l :: lines) with ([l] ++ lines).
    rewrite filter_app, with_newlines_app, progress_events_app.
    rewrite <- !app_assoc.
    destruct mainWindow; [reflexivity|]. rewrite !app_nil_r. reflexivity.
Qed.

(** The handler over any chunks of the stream. *)
Lemma stderr_chunks_exact (mainWindow : bool) (chunks : list jsstring) :
  forall s : Main.stderr_state,
    fold_left (Main.stderr_on_data mainWindow) chunks s =
    {| Main.stderr :=
         Main.stderr s ++
         Spec.with_newlines
           (filter Demux.appended (flat_map split_lines chunks));
       Main.sent :=
         Main.sent s ++
         (if mainWindow
          then Spec.progress_events (flat_map split_lines chunks)
          else []) |}.
Proof.
  induction chunks as [|c chunks IH]; intros s.
  - simpl. destruct mainWindow; rewrite !app_nil_r; destruct s; reflexivity.
  - cbn [fold_left flat_map]. rewrite IH.
    unfold Main.stderr_on_data at 1 2.
    rewrite stderr_lines_exact. cbn [Main.stderr Main.sent].
    rewrite filter_app, with_newlines_app, progress_events_app.
    rewrite <- !app_assoc.
    destruct mainWindow; [reflexivity|]. rewrite !app_nil_r. reflexivity.
Qed.

Lemma appended_unparsed (l : jsstring) (e : exn) :
  ~ Spec.blank l -> JSON.parse l = Throw e -> Demux.appended l = true.
Proof.
  intros Hb Hp. unfold Demux.appended, Demux.read_type.
  apply truthy_str_true in Hb. rewrite Hb, Hp. reflexivity.
Qed.

Lemma appended_blank (l : jsstring) :
  Spec.blank l -> Demux.appended l = false /\ Spec.progress_data l = None.
Proof.
  intros Hb. unfold Demux.appended, Spec.progress_data.
  apply truthy_str_false in Hb. rewrite Hb. split; reflexivity.
Qed.

Lemma appended_json (l : jsstring) (v : json) :
  JSON.parse l = Normal v -> v <> JNull -> Demux.appended l = false.
Proof.
  intros Hp Hv. unfold Demux.appended, Demux.read_type. rewrite Hp.
  destruct v; try congruence; cbn [bind get_prop]; apply andb_false_r.
Qed.

Section Demultiplexer.
Context {host : Main.Host}.
Variables (st : Main.store) (now : N) (o : Main.options).

(** C6, as amended. Over the lines of the stderr chunks, whatever they
    are: the diagnostic text is the appended lines, each with a newline and
    in order, and every line that is not blank and does not parse as JSON
    is appended; the progress events sent are, in order and when the window
    exists, the payloads of the lines that parse as JSON tagged
    [progress], and such a line is not appended; a blank line is neither
    appended nor sent, and neither is a line that parses as a JSON value
    other than [null] and lacks the tag. *)
Theorem C6_stderr_lines_are_demultiplexed :
  forall (mainWindow : bool) (proc : Main.child),
    let lines := flat_map split_lines (Main.stderr_data proc) in
    Spec.diagnostic_text mainWindow proc =
      Spec.with_newlines (filter Demux.appended lines) /\
    Spec.progress_of (Main.generate_tts st now mainWindow o proc) =
      (if mainWindow then Spec.progress_events lines else []) /\
    (forall l e, ~ Spec.blank l -> JSON.parse l = Throw e ->
                 Demux.appended l = true) /\
    (forall l d, Spec.progress_data l = Some d <->
                 ~ Spec.blank l /\
                 exists v, JSON.parse l = Normal v /\
                           Spec.member "type" v = Some (JStr (lit "progress")) /\
                           d = Spec.member "data" v) /\
    (forall l d, Spec.progress_data l = Some d -> Demux.appended l = false) /\
    (forall l, Spec.blank l ->
               Demux.appended l = false /\ Spec.progress_data l = None) /\
    (forall l v, JSON.parse l = Normal v -> v <> JNull ->
                 Spec.member "type" v <> Some (JStr (lit "progress")) ->
                 Demux.appended l = false /\ Spec.progress_data l = None).
Proof.
  intros mainWindow proc lines.
  unfold Spec.diagnostic_text, Spec.progress_of, Main.generate_tts.
  cbn [fst snd].
  rewrite stderr_chunks_exact. cbn [Main.stderr Main.sent].
  split; [reflexivity|]. split; [reflexivity|].
  split; [intros l e; apply appended_unparsed|].
  split; [intros l d; apply progress_data_spec|].
  split; [|split; [intros l; apply appended_blank|]].
  - intros l d Hd. apply progress_data_spec in Hd as (_ & v & Hp & Ht & _).
    apply (appended_json l v Hp). intros ->. discriminate Ht.
  - intros l v Hp Hv Ht. split; [exact (appended_json l v Hp Hv)|].
    destruct (Spec.progress_data l) as [d|] eqn:Hd; [|reflexivity].
    apply progress_data_spec in Hd as (_ & v' & Hp' & Ht' & _).
    rewrite Hp in Hp'. injection Hp' as <-. contradiction.
Qed.

End Demultiplexer.

(** ** Validation in the renderer *)

Section Validation.
Context {host : Main.Host}.
Variables (st : Main.store) (now : N) (mainWindow : bool)
          (proc : Main.child).

Local Abbreviation click app f :=
  (Renderer.generateTTS app f st now mainWindow proc).

(** A text that is blank once trimmed stops [generateTTS] at its first
    check. *)
Lemma blank_text_not_started (app : Renderer.EcloApp) (f : Renderer.form) :
  trim (Renderer.tts_text f) = [] ->
  click app f = Renderer.NotStarted (lit "Please enter text to convert").
Proof.
  intros Hblank. unfold Renderer.generateTTS, Renderer.generateTTS_request.
  rewrite Hblank. reflexivity.
Qed.

(** With no voice selected [generateTTS] stops at its second check. *)
Lemma no_voice_not_started (app : Renderer.EcloApp) (f : Renderer.form) :
  trim (Renderer.tts_text f) <> [] ->
  Renderer.selectedVoice app = None ->
  click app f = Renderer.NotStarted (lit "Please select a voice").
Proof.
  intros Htext Hvoice.
  unfold Renderer.generateTTS, Renderer.generateTTS_request.
  apply truthy_str_true in Htext. rewrite Htext, Hvoice. reflexivity.
Qed.

(** C4. A generation request with an empty text fails validation: the user
    is told to enter text, [generate-tts] is not called, and no process is
    spawned. *)
Theorem C4_empty_text_spawns_nothing :
  forall (app : Renderer.EcloApp) (f : Renderer.form),
    Renderer.tts_text f = [] ->
    click app f = Renderer.NotStarted (lit "Please enter text to convert") /\
    Renderer.spawned (click app f) = [].
Proof.
  intros app f Hempty.
  assert (E : click app f =
              Renderer.NotStarted (lit "Please enter text to convert")).
  { apply blank_text_not_started. rewrite Hempty. reflexivity. }
  rewrite E. split; reflexivity.
Qed.

(** C5, at the input where the code departs from it. For an engine whose
    [voiceCloning] and [presetVoices] are both false, a request with text and
    no voice finds the generate button enabled, yet [generateTTS] stops at
    its voice check, whatever the capabilities: it tells the user to select
    a voice and spawns nothing. *)
Theorem C5_voiceless_request_is_stopped_for_every_engine :
  forall (app : Renderer.EcloApp) (caps : Renderer.capabilities)
         (f : Renderer.form),
    Renderer.currentModelCapabilities app = Some caps ->
    Renderer.voiceCloning caps = false ->
    Renderer.presetVoices caps = false ->
    Renderer.selectedVoice app = None ->
    trim (Renderer.tts_text f) <> [] ->
    Renderer.updateGenerateButtonState app f = false /\
    click app f = Renderer.NotStarted (lit "Please select a voice") /\
    Renderer.spawned (click app f) = [].
Proof.
  intros app caps f Hcaps Hclone Hpreset Hvoice Htext.
  rewrite (no_voice_not_started app f Htext Hvoice).
  split; [|split; reflexivity].
  unfold Renderer.updateGenerateButtonState.
  rewrite Hcaps, Hclone, Hpreset. simpl.
  destruct (trim (Renderer.tts_text f)); [congruence | reflexivity].
Qed.

(** With a voice selected and a text, the request reaches the spawn. *)
Lemma voiced_request_spawns (app : Renderer.EcloApp) (f : Renderer.form)
  (v : Renderer.voice) :
  trim (Renderer.tts_text f) <> [] ->
  Renderer.selectedVoice app = Some v ->
  exists call, Renderer.spawned (click app f) = [call].
Proof.
  intros Htext Hvoice.
  unfold Renderer.generateTTS, Renderer.generateTTS_request.
  apply truthy_str_true in Htext. rewrite Htext, Hvoice. simpl.
  destruct (Renderer.type v); simpl; eauto.
Qed.

End Validation.

(** ** The history store *)

Lemma firstn_app_firstn {A} (n : nat) (a b : list A) :
  firstn n (a ++ firstn n b) = firstn n (a ++ b).
Proof.
  rewrite !firstn_app, firstn_firstn.
  replace (Nat.min (n - length a) n) with (n - length a) by lia.
  reflexivity.
Qed.

(** One append, on a store within the cap: the new entry goes first and
    the first hundred stay. *)
Lemma append_firstn (st : Main.store) (c : Spec.append_call) :
  length (Main.get_history st) <= 100 ->
  Main.get_history (Spec.append st c) =
  firstn 100 (Spec.entry_of c :: Main.get_history st).
Proof.
  intros Hlen.
  unfold Spec.append, Main.add_history_item. cbn [fst].
  unfold Main.get_history at 1. cbn [Main.set_history Main.historyItems].
  fold (Spec.entry_of c).
  set (h := Spec.entry_of c :: Main.get_history st).
  assert (Hh : length h = S (length (Main.get_history st))) by reflexivity.
  destruct (Nat.ltb_spec 100 (length h)) as [Hgt | Hle].
  - rewrite removelast_firstn_len.
    replace (Nat.pred (length h)) with 100 by lia. reflexivity.
  - symmetry. apply firstn_all2. exact Hle.
Qed.

Lemma append_within_cap (st : Main.store) (c : Spec.append_call) :
  length (Main.get_history st) <= 100 ->
  length (Main.get_history (Spec.append st c)) <= 100.
Proof.
  intros Hlen. rewrite (append_firstn st c Hlen).
  rewrite length_firstn. lia.
Qed.

(** Any run of appends: the entries go in front, newest first, and the
    first hundred stay. *)
Lemma append_all_firstn (cs : list Spec.append_call) :
  forall st : Main.store,
    length (Main.get_history st) <= 100 ->
    Main.get_history (Spec.append_all st cs) =
    firstn 100 (rev (map Spec.entry_of cs) ++ Main.get_history st).
Proof.
  induction cs as [|c cs IH]; intros st Hlen.
  - cbn [Spec.append_all fold_left map rev app].
    symmetry. apply firstn_all2. exact Hlen.
  - cbn [Spec.append_all fold_left]. fold (Spec.append_all (Spec.append st c) cs).
    rewrite (IH _ (append_within_cap st c Hlen)).
    rewrite (append_firstn st c Hlen), firstn_app_firstn.
    cbn [map rev]. rewrite <- app_assoc. reflexivity.
Qed.

(** C8. Every append puts the new entry at the front and, when that takes
    the store past 100 entries, drops exactly the last, oldest one, so a
    store within the cap stays within it. After 101 appends to an empty
    store exactly 100 entries remain: the entries of the last 100 appends,
    newest first, without the entry of the first append. *)
Theorem C8_history_keeps_the_newest_hundred :
  (forall (st : Main.store) (c : Spec.append_call),
      let old := Main.get_history st in
      let new := Main.get_history (Spec.append st c) in
      snd (Main.add_history_item st (Spec.at_ms c) (Spec.suffix c)
             (Spec.stamp c) (Spec.summary c)) = Spec.entry_of c /\
      (length old < 100 -> new = Spec.entry_of c :: old) /\
      (100 <= length old ->
       new = removelast (Spec.entry_of c :: old) /\
       exists oldest, Spec.entry_of c :: old = new ++ [oldest]) /\
      (length old <= 100 -> length new <= 100)) /\
  (forall (st : Main.store) (cs : list Spec.append_call),
      Main.get_history st = [] ->
      length cs = 101 ->
      let entries := map Spec.entry_of cs in
      let h := Main.get_history (Spec.append_all st cs) in
      length h = 100 /\
      h = rev (tl entries) /\
      (forall first,
          hd_error entries = Some first ->
          ~ In first (tl entries) -> ~ In first h)).
Proof.
  split.
  - intros st c old new.
    assert (Hnew : new =
      if (100 <? length (Spec.entry_of c :: old))%nat
      then removelast (Spec.entry_of c :: old)
      else Spec.entry_of c :: old) by reflexivity.
    split; [reflexivity|]. split; [|split].
    + intros Hlt. rewrite Hnew.
      destruct (Nat.ltb_spec 100 (length (Spec.entry_of c :: old)));
        [simpl in *; lia | reflexivity].
    + intros Hge.
      assert (E : new = removelast (Spec.entry_of c :: old)).
      { rewrite Hnew.
        destruct (Nat.ltb_spec 100 (length (Spec.entry_of c :: old)));
          [reflexivity | simpl in *; lia]. }
      split; [exact E|].
      exists (last (Spec.entry_of c :: old) []). rewrite E.
      apply app_removelast_last. discriminate.
    + apply append_within_cap.
  - intros st cs Hempty Hlen entries h.
    assert (Hh : h = firstn 100 (rev entries)).
    { unfold h. rewrite append_all_firstn by (rewrite Hempty; simpl; lia).
      rewrite Hempty, app_nil_r. reflexivity. }
    assert (Hentries : length entries = 101)
      by (unfold entries; rewrite length_map; exact Hlen).
    destruct entries as [|first rest] eqn:E; [discriminate|].
    assert (Hrest : length rest = 100) by (simpl in Hentries; lia).
    assert (Hrev : h = rev rest).
    { rewrite Hh. cbn [rev]. rewrite firstn_app, length_rev, Hrest.
      rewrite Nat.sub_diag, firstn_O, app_nil_r.
      apply firstn_all2. rewrite length_rev. lia. }
    split; [|split].
    + rewrite Hrev, length_rev. exact Hrest.
    + exact Hrev.
    + intros first' [= <-] Hnot Hin. apply Hnot.
      cbn [tl]. apply in_rev. rewrite <- Hrev. exact Hin.
Qed.

Lemma strict_eq_str_spec (v : value) (s : jsstring) :
  strict_eq_str v s = true <-> v = Some (JStr s).
Proof.
  unfold strict_eq_str. destruct v as [[| | | t | |]|];
    try (split; [discriminate | intros [=]]).
  rewrite str_eqb_eq. split; [intros ->; reflexivity | intros [= ->]; auto].
Qed.

Lemma filter_keeps_all {A} (f : A -> bool) (l : list A) :
  (forall x, In x l -> f x = true) -> filter f l = l.
Proof.
  induction l as [|x l IH]; intros H; simpl; [reflexivity|].
  rewrite (H x (or_introl eq_refl)), IH; [reflexivity|].
  intros y Hy. apply H. right. exact Hy.
Qed.

(** C9, as amended. Removing an id always answers true, whether or not an
    entry had it. The store then lists, in their order, the entries that do
    not have the id; when no entry had it the listing is unchanged. *)
Theorem C9_remove_answers_true_and_drops_the_id :
  forall (st : Main.store) (id : jsstring),
    let st' := fst (Main.delete_history_item st id) in
    snd (Main.delete_history_item st id) = true /\
    (exists keep,
        Main.get_history st' = filter keep (Main.get_history st) /\
        forall item, keep item = true <-> ~ Spec.has_id id item) /\
    (forall item,
        In item (Main.get_history st') <->
        In item (Main.get_history st) /\ ~ Spec.has_id id item) /\
    ((forall item, In item (Main.get_history st) -> ~ Spec.has_id id item) ->
     Main.get_history st' = Main.get_history st).
Proof.
  intros st id st'.
  set (keep := fun item : object =>
                 negb (strict_eq_str (lookup (lit "id") item) id)).
  assert (Hkeep : forall item, keep item = true <-> ~ Spec.has_id id item).
  { intros item. unfold keep, Spec.has_id.
    rewrite negb_true_iff, <- not_true_iff_false, strict_eq_str_spec.
    tauto. }
  assert (E : Main.get_history st' = filter keep (Main.get_history st))
    by reflexivity.
  split; [reflexivity|]. split; [|split].
  - exists keep. split; [exact E | exact Hkeep].
  - intros item. rewrite E, filter_In, Hkeep. tauto.
  - intros Hnone. rewrite E. apply filter_keeps_all.
    intros item Hin. apply Hkeep. apply Hnone. exact Hin.
Qed.

(** [clear()] empties the store unconditionally. *)
Lemma clear_history_empties (st : Main.store) :
  Main.get_history (fst (Main.clear_history st)) = [] /\
  snd (Main.clear_history st) = true.
Proof. split; reflexivity. Qed.

(* ================================================================== *)
(** * The properties on concrete runs                                  *)
(* ================================================================== *)

(** C1 on a concrete run: the stdout of the specification with exit code 1. *)
Lemma C1_witness :
  JSON.parse (trim (Spec.stdout_buffer
                      (Sample.process [Runs.full_result] [] 1))) =
    Normal (JObj [(lit "success", JBool true);
                  (lit "outputPath", JStr (lit "/tmp/a.wav"));
                  (lit "duration", JNum 32 (-1))]) /\
  Spec.Success
    (Spec.outcome_of (Runs.run (Sample.process [Runs.full_result] [] 1)))
    (Some (JStr (lit "/tmp/a.wav"))) (Some (JNum 32 (-1))).
Proof.
  split; [reflexivity|].
  exact (proj2 (proj1 (C1_structured_success_beats_exit_code
                         (host := Sample.host) Sample.settings Runs.now true
                         Sample.options)
                  (Sample.process [Runs.full_result] [] 1)
                  _ eq_refl eq_refl)).
Defined.

(** The stdout buffer [{"success":true}] has a truthy success flag and no
    output path, and the outcome does not carry the precomputed path
    [/out/eclo_1704067200000.wav]. *)
Lemma bare_success_resolves_without_path :
  let proc := Sample.process [Runs.bare_success] [] 0 in
  (exists result,
      JSON.parse (trim (Spec.stdout_buffer proc)) = Normal result /\
      truthy (Spec.member "success" result) = true /\
      Spec.member "outputPath" result = None) /\
  Runs.precomputed = lit "/out/eclo_1704067200000.wav" /\
  ~ exists duration,
      Spec.Success (Spec.outcome_of (Runs.run proc))
                   (Some (JStr Runs.precomputed)) duration.
Proof.
  intros proc. split; [|split].
  - exists (JObj [(lit "success", JBool true)]). repeat split.
  - reflexivity.
  - intros (duration & result & Hres & _ & Hpath & _).
    vm_compute in Hres. injection Hres as <-. discriminate Hpath.
Qed.

(** C2 on a concrete run: the stdout [{"success":true}]. *)
Lemma C2_witness :
  let proc := Sample.process [Runs.bare_success] [] 0 in
  Spec.outcome_of (Runs.run proc) =
    Main.Resolve (JObj [(lit "success", JBool true)]) /\
  Spec.Success (Spec.outcome_of (Runs.run proc)) None None.
Proof.
  intros proc.
  destruct (C2_success_without_path_has_no_path
              (host := Sample.host) Sample.settings Runs.now true
              Sample.options proc (JObj [(lit "success", JBool true)])
              eq_refl eq_refl eq_refl) as (H1 & H2 & _).
  split; [exact H1 | exact H2].
Defined.

(** C3 on a concrete run: a stdout that is not JSON, with exit code 0. *)
Lemma C3_witness :
  let proc := Sample.process [lit "Traceback"] [] 0 in
  JSON.parse (trim (Spec.stdout_buffer proc)) = Throw SyntaxError /\
  Spec.Success (Spec.outcome_of (Runs.run proc))
               (Some (JStr Runs.precomputed)) None.
Proof.
  intros proc. split; [reflexivity|].
  exact (proj1 (C3_unparsed_stdout_exit_zero_succeeds
                  (host := Sample.host) Sample.settings Runs.now true
                  Sample.options)
           proc SyntaxError eq_refl eq_refl).
Defined.

(** C4 on a concrete run: an empty text with an engine that wants a voice. *)
Lemma C4_witness :
  Runs.click (Sample.app Sample.outetts) (Sample.form []) =
    Renderer.NotStarted (lit "Please enter text to convert") /\
  Renderer.spawned (Runs.click (Sample.app Sample.outetts) (Sample.form []))
  = [].
Proof.
  exact (C4_empty_text_spawns_nothing
           (host := Sample.host) Sample.settings Runs.now true
           (Sample.process [] [] 0)
           (Sample.app Sample.outetts) (Sample.form []) eq_refl).
Defined.

(** C5 on a concrete run: Kokoro, which has neither capability, with the
    text [Hello] and no voice. *)
Lemma C5_witness :
  let app := Sample.app Sample.kokoro in
  let f := Sample.form (lit "Hello") in
  Renderer.updateGenerateButtonState app f = false /\
  Runs.click app f = Renderer.NotStarted (lit "Please select a voice") /\
  Renderer.spawned (Runs.click app f) = [].
Proof.
  intros app f.
  apply (C5_voiceless_request_is_stopped_for_every_engine
           (host := Sample.host) Sample.settings Runs.now true
           (Sample.process [] [] 0) app Sample.kokoro f);
    try reflexivity.
  vm_compute. discriminate.
Defined.

(** C6 fails as stated: the line [{"type":"log"}] is JSON without the
    progress tag, and it is neither appended to the diagnostic text nor
    sent. *)
Lemma C6_counterexample :
  let s :=
    Main.stderr_on_data true {| Main.stderr := []; Main.sent := [] |}
      Runs.log_line in
  (exists v, JSON.parse Runs.log_line = Normal v /\
             Spec.member "type" v <> Some (JStr (lit "progress"))) /\
  Main.stderr s = [] /\
  Main.stderr s <> Runs.log_line ++ [10%N] /\
  Main.sent s = [].
Proof.
  intros s. split; [|split; [|split]].
  - exists (JObj [(lit "type", JStr (lit "log"))]).
    split; [reflexivity | vm_compute; discriminate].
  - reflexivity.
  - vm_compute. discriminate.
  - reflexivity.
Qed.

(** C6 on a concrete run: two progress lines around a line of plain text,
    then a line that is JSON without the tag. *)
Lemma C6_witness :
  let proc :=
    Sample.process [] [Runs.interleaved; Runs.log_line ++ [10%N]] 0 in
  Spec.diagnostic_text true proc = lit "some plain text" ++ [10%N] /\
  Spec.progress_of (Runs.run proc) =
    [Runs.progress_payload 10; Runs.progress_payload 50] /\
  Demux.appended (lit "some plain text") = true /\
  Demux.appended Runs.log_line = false /\
  Spec.progress_data Runs.log_line = None.
Proof.
  intros proc.
  destruct (C6_stderr_lines_are_demultiplexed
              (host := Sample.host) Sample.settings Runs.now Sample.options
              true proc) as (H1 & H2 & H3 & _ & _ & _ & H7).
  split; [exact H1|]. split; [exact H2|]. split.
  - apply (H3 _ SyntaxError); [|reflexivity].
    unfold Spec.blank. vm_compute. discriminate.
  - apply (H7 _ (JObj [(lit "type", JStr (lit "log"))]));
      [reflexivity | discriminate | vm_compute; discriminate].
Defined.

(** C7 on a concrete run: the three stderr lines of the specification. *)
Lemma C7_witness :
  let proc := Sample.process [] [Runs.noisy] 1 in
  JSON.parse (trim (Spec.stdout_buffer proc)) = Throw SyntaxError /\
  Main.exit_code proc <> Some 0%Z /\
  Spec.Failure (Spec.outcome_of (Runs.run proc))
               (lit "real error: disk full").
Proof.
  intros proc.
  assert (Hcode : Main.exit_code proc <> Some 0%Z) by discriminate.
  split; [reflexivity|]. split; [exact Hcode|].
  destruct (proj1 (C7_failure_message_filters_noise
                     (host := Sample.host) Sample.settings Runs.now true
                     Sample.options)
              proc SyntaxError eq_refl Hcode) as (kept & _ & -> & H).
  exact H.
Defined.

(** C8 on a concrete run: 101 appends to the empty store, one append to
    it, and one to a full store. *)
Lemma C8_witness :
  let cs := Sample.calls 101 in
  let h := Main.get_history (Spec.append_all Sample.settings cs) in
  length cs = 101 /\
  length h = 100 /\
  h = rev (tl (map Spec.entry_of cs)) /\
  ~ In (Spec.entry_of (Sample.call 0)) h /\
  Main.get_history (Spec.append Sample.settings (Sample.call 0)) =
    [Spec.entry_of (Sample.call 0)] /\
  length (Main.get_history (Spec.append Runs.full_store (Sample.call 100)))
    <= 100.
Proof.
  intros cs h.
  destruct (proj2 C8_history_keeps_the_newest_hundred
              Sample.settings cs eq_refl eq_refl) as (H1 & H2 & H3).
  destruct (proj1 C8_history_keeps_the_newest_hundred
              Sample.settings (Sample.call 0)) as (_ & Hfront & _).
  destruct (proj1 C8_history_keeps_the_newest_hundred
              Runs.full_store (Sample.call 100)) as (_ & _ & _ & Hcap).
  split; [reflexivity|]. split; [exact H1|]. split; [exact H2|].
  split; [|split].
  - apply (H3 _ eq_refl). intros Hin. vm_compute in Hin.
    repeat (destruct Hin as [Hin | Hin]; [discriminate Hin|]).
    exact Hin.
  - apply Hfront. simpl. lia.
  - apply Hcap. vm_compute. apply le_n.
Defined.

(** C9 fails as stated: no entry of the store has the id [missing], and
    removing that id answers true. *)
Lemma C9_counterexample :
  let st := Spec.append_all Sample.settings (Sample.calls 2) in
  length (Main.get_history st) = 2 /\
  (forall item,
      In item (Main.get_history st) -> ~ Spec.has_id (lit "missing") item) /\
  snd (Main.delete_history_item st (lit "missing")) = true /\
  snd (Main.delete_history_item st (lit "missing")) <> false.
Proof.
  intros st. split; [reflexivity|]. split; [|split].
  - intros item Hin Hid. vm_compute in Hin.
    destruct Hin as [<- | [<- | []]]; vm_compute in Hid; discriminate Hid.
  - reflexivity.
  - discriminate.
Qed.

(** C9 on a concrete run: a store of two entries and an id that neither has. *)
Lemma C9_witness :
  let st := Spec.append_all Sample.settings (Sample.calls 2) in
  snd (Main.delete_history_item st (lit "missing")) = true /\
  Main.get_history (fst (Main.delete_history_item st (lit "missing"))) =
  Main.get_history st.
Proof.
  intros st.
  destruct (C9_remove_answers_true_and_drops_the_id st (lit "missing"))
    as (Htrue & _ & _ & Hsame).
  split; [exact Htrue|]. apply Hsame.
  intros item Hin Hid. vm_compute in Hin.
  destruct Hin as [<- | [<- | []]]; vm_compute in Hid; discriminate Hid.
Defined.

(* ================================================================== *)
(** * Further properties of the history store                          *)
(* ================================================================== *)

Ltac distinct_literals :=
  let H := fresh in intros H; vm_compute in H; discriminate H.

Lemma lookup_obj_set_same (k : jsstring) (v : json) (o : object) :
  lookup k (obj_set k v o) = Some v.
Proof.
  induction o as [|[k' v'] o IH]; simpl.
  - rewrite str_eqb_refl. reflexivity.
  - destruct (str_eqb k k') eqn:E; simpl.
    + rewrite str_eqb_refl. reflexivity.
    + rewrite E. exact IH.
Qed.

Lemma lookup_obj_set_other (k k' : jsstring) (v : json) (o : object) :
  k' <> k -> lookup k' (obj_set k v o) = lookup k' o.
Proof.
  intros Hne.
  assert (Hkk : str_eqb k' k = false).
  { apply not_true_iff_false. rewrite str_eqb_eq. exact Hne. }
  induction o as [|[k0 v0] o IH]; simpl.
  - rewrite Hkk. reflexivity.
  - destruct (str_eqb k k0) eqn:E; simpl.
    + apply str_eqb_eq in E. subst k0. rewrite Hkk. reflexivity.
    + destruct (str_eqb k' k0); [reflexivity | exact IH].
Qed.

(** X1. The entry that [add-history-item] makes and returns has the id
    [<now>-<suffix>] and the timestamp given, whatever id or timestamp the
    item came with; every other field is the item's own; and the entry is
    the first of the listing afterwards. *)
Theorem X1_new_entry_overrides_id_and_timestamp_only :
  forall (st : Main.store) (now : N) (rnd iso : jsstring) (item : object),
    let r := Main.add_history_item st now rnd iso item in
    let e := snd r in
    lookup (lit "id") e = Some (JStr (show_N now ++ lit "-" ++ rnd)) /\
    lookup (lit "timestamp") e = Some (JStr iso) /\
    (forall k, k <> lit "id" -> k <> lit "timestamp" ->
               lookup k e = lookup k item) /\
    hd_error (Main.get_history (fst r)) = Some e.
Proof.
  intros st now rnd iso item r e.
  assert (He : e = Main.new_item now rnd iso item) by reflexivity.
  split; [|split; [|split]].
  - rewrite He. unfold Main.new_item.
    rewrite lookup_obj_set_other by distinct_literals.
    apply lookup_obj_set_same.
  - rewrite He. unfold Main.new_item. apply lookup_obj_set_same.
  - intros k Hid Hts. rewrite He. unfold Main.new_item.
    rewrite !lookup_obj_set_other by assumption. reflexivity.
  - unfold r, Main.add_history_item. cbn [fst].
    unfold Main.get_history at 1. cbn [Main.set_history Main.historyItems].
    fold e. rewrite <- He.
    destruct (Nat.ltb_spec 100 (length (e :: Main.get_history st)))
      as [Hgt|_]; [|reflexivity].
    destruct (Main.get_history st) as [|x l]; [simpl in Hgt; lia|].
    reflexivity.
Qed.

(** X2. An append makes the listing one longer while it has fewer than 100
    entries and leaves its length as it is from 100 on: a listing of
    exactly 100 stays at 100, and one that was already longer than 100 is
    not brought back to the cap. *)
Theorem X2_append_length :
  forall (st : Main.store) (c : Spec.append_call),
    length (Main.get_history (Spec.append st c)) =
    if (length (Main.get_history st) <? 100)%nat
    then S (length (Main.get_history st))
    else length (Main.get_history st).
Proof.
  intros st c.
  unfold Spec.append, Main.add_history_item. cbn [fst].
  unfold Main.get_history at 1. cbn [Main.set_history Main.historyItems].
  set (old := Main.get_history st).
  set (e := Main.new_item _ _ _ _).
  assert (Hlen : length (e :: old) = S (length old)) by reflexivity.
  destruct (Nat.ltb_spec 100 (length (e :: old)));
    destruct (Nat.ltb_spec (length old) 100); try lia.
  rewrite removelast_firstn_len, length_firstn. lia.
Qed.

(** X3. After any run of appends to a store within the cap, the listing is
    the first 100 of: the new entries, newest first, then the old listing.
    So while the total stays within 100 nothing is lost. *)
Theorem X3_appends_keep_the_first_hundred :
  forall (st : Main.store) (cs : list Spec.append_call),
    length (Main.get_history st) <= 100 ->
    Main.get_history (Spec.append_all st cs) =
      firstn 100 (rev (map Spec.entry_of cs) ++ Main.get_history st) /\
    (length cs + length (Main.get_history st) <= 100 ->
     Main.get_history (Spec.append_all st cs) =
       rev (map Spec.entry_of cs) ++ Main.get_history st).
Proof.
  intros st cs Hcap.
  pose proof (append_all_firstn cs st Hcap) as E.
  split; [exact E|].
  intros Hroom. rewrite E. apply firstn_all2.
  rewrite length_app, length_rev, length_map. exact Hroom.
Qed.

Lemma filter_idempotent {A} (f : A -> bool) (l : list A) :
  filter f (filter f l) = filter f l.
Proof.
  induction l as [|x l IH]; simpl; [reflexivity|].
  destruct (f x) eqn:E; simpl; [rewrite E, IH|]; auto.
Qed.

Lemma filter_commutes {A} (f g : A -> bool) (l : list A) :
  filter f (filter g l) = filter g (filter f l).
Proof.
  induction l as [|x l IH]; simpl; [reflexivity|].
  destruct (f x) eqn:Ef, (g x) eqn:Eg; simpl;
    rewrite ?Ef, ?Eg, IH; reflexivity.
Qed.

Lemma in_firstn {A} (n : nat) (l : list A) (x : A) :
  In x (firstn n l) -> In x l.
Proof.
  revert l; induction n as [|n IH]; intros [|y l]; simpl; try tauto.
  intros [H | H]; [left; exact H | right; exact (IH l H)].
Qed.

Lemma get_history_delete (st : Main.store) (id : jsstring) :
  Main.get_history (fst (Main.delete_history_item st id)) =
  filter (fun item => negb (strict_eq_str (lookup (lit "id") item) id))
         (Main.get_history st).
Proof. reflexivity. Qed.

(** X4. Appending to a store within the cap and then removing the id of
    the entry just made, when no earlier entry has that id, gives back the
    first 99 entries of the old listing: the old listing itself when it had
    fewer than 100. *)
Theorem X4_append_then_remove :
  forall (st : Main.store) (c : Spec.append_call),
    let id := show_N (Spec.at_ms c) ++ lit "-" ++ Spec.suffix c in
    length (Main.get_history st) <= 100 ->
    (forall item, In item (Main.get_history st) -> ~ Spec.has_id id item) ->
    Main.get_history (fst (Main.delete_history_item (Spec.append st c) id)) =
      firstn 99 (Main.get_history st) /\
    (length (Main.get_history st) < 100 ->
     Main.get_history (fst (Main.delete_history_item (Spec.append st c) id))
     = Main.get_history st).
Proof.
  intros st c id Hcap Hfresh.
  assert (E : Main.get_history
                (fst (Main.delete_history_item (Spec.append st c) id)) =
              firstn 99 (Main.get_history st)).
  { rewrite get_history_delete, (append_firstn st c Hcap).
    change 100 with (S 99). rewrite firstn_cons. cbn [filter].
    assert (Hid : lookup (lit "id") (Spec.entry_of c) = Some (JStr id)).
    { unfold Spec.entry_of, Main.new_item.
      rewrite lookup_obj_set_other by distinct_literals.
      apply lookup_obj_set_same. }
    rewrite Hid. unfold strict_eq_str at 1. rewrite str_eqb_refl.
    cbn [negb]. apply filter_keeps_all.
    intros item Hin. apply in_firstn in Hin.
    rewrite negb_true_iff, <- not_true_iff_false, strict_eq_str_spec.
    exact (Hfresh item Hin). }
  split; [exact E|].
  intros Hlt. rewrite E. apply firstn_all2. lia.
Qed.

(** X5. Removing an id twice is the same as removing it once, and two
    removals give the same store in either order. *)
Theorem X5_remove_is_idempotent_and_commutes :
  forall (st : Main.store) (a b : jsstring),
    let del s id := fst (Main.delete_history_item s id) in
    del (del st a) a = del st a /\
    del (del st a) b = del (del st b) a.
Proof.
  intros st a b del. unfold del, Main.delete_history_item. cbn [fst].
  unfold Main.set_history, Main.get_history.
  cbn [Main.historyItems Main.ttsModel Main.outputFormat Main.outputPath].
  split.
  - rewrite filter_idempotent. reflexivity.
  - rewrite filter_commutes. reflexivity.
Qed.

Lemma entry_stamped (c : Spec.append_call) :
  Ledger.stamped (Spec.entry_of c).
Proof.
  unfold Ledger.stamped, Spec.entry_of, Main.new_item. split.
  - eexists. rewrite lookup_obj_set_other by distinct_literals.
    apply lookup_obj_set_same.
  - eexists. apply lookup_obj_set_same.
Qed.

Lemma step_keeps_cap_and_stamps (st : Main.store) (o : Ledger.op) :
  length (Main.get_history st) <= 100 ->
  Forall Ledger.stamped (Main.get_history st) ->
  length (Main.get_history (Ledger.step st o)) <= 100 /\
  Forall Ledger.stamped (Main.get_history (Ledger.step st o)).
Proof.
  intros Hcap Hst. destruct o as [c | id |]; cbn [Ledger.step].
  - split; [apply append_within_cap; exact Hcap|].
    rewrite (append_firstn st c Hcap). apply Forall_forall.
    intros item Hin. apply in_firstn in Hin. destruct Hin as [<- | Hin].
    + apply entry_stamped.
    + rewrite Forall_forall in Hst. exact (Hst item Hin).
  - rewrite get_history_delete. split.
    + etransitivity; [apply filter_length_le | exact Hcap].
    + apply Forall_forall. intros item Hin. apply filter_In in Hin.
      rewrite Forall_forall in Hst. exact (Hst item (proj1 Hin)).
  - split; [simpl; lia | constructor].
Qed.

(** X6. Whatever sequence of appends, removals and clears is applied to a
    store that is within the cap and whose entries all have a string id and
    a string timestamp, the store stays within the cap of 100 and every
    entry still has a string id and a string timestamp. *)
Theorem X6_ledger_keeps_cap_and_stamps :
  forall (ops : list Ledger.op) (st : Main.store),
    length (Main.get_history st) <= 100 ->
    Forall Ledger.stamped (Main.get_history st) ->
    length (Main.get_history (Ledger.run st ops)) <= 100 /\
    Forall Ledger.stamped (Main.get_history (Ledger.run st ops)).
Proof.
  induction ops as [|o ops IH]; intros st Hcap Hst.
  - split; assumption.
  - destruct (step_keeps_cap_and_stamps st o Hcap Hst) as [Hcap' Hst'].
    exact (IH (Ledger.step st o) Hcap' Hst').
Qed.

Lemma remove_one_of_unique (id : jsstring) (l : list object) :
  NoDup (map Ledger.id_of l) ->
  (exists item, In item l /\ Spec.has_id id item) ->
  S (length (filter (fun item =>
                       negb (strict_eq_str (lookup (lit "id") item) id)) l))
  = length l.
Proof.
  set (keep := fun item : object =>
                 negb (strict_eq_str (lookup (lit "id") item) id)).
  assert (Hkeep : forall item, keep item = false <-> Spec.has_id id item).
  { intros item. unfold keep, Spec.has_id.
    rewrite negb_false_iff, strict_eq_str_spec. tauto. }
  induction l as [|x l IH]; intros Hnd (item & Hin & Hid).
  - destruct Hin.
  - cbn [map] in Hnd. apply NoDup_cons_iff in Hnd as [Hx Hnd].
    cbn [filter length]. destruct (keep x) eqn:Ex.
    + cbn [length]. f_equal. apply IH; [exact Hnd|].
      destruct Hin as [<- | Hin].
      * apply Hkeep in Hid. congruence.
      * exists item. split; assumption.
    + f_equal. f_equal. apply filter_keeps_all.
      intros y Hy. destruct (keep y) eqn:Ey; [reflexivity|].
      exfalso. apply Hx. apply Hkeep in Ex. apply Hkeep in Ey.
      unfold Spec.has_id in Ex, Ey. unfold Ledger.id_of at 1. rewrite Ex.
      rewrite <- Ey. apply (in_map Ledger.id_of). exact Hy.
Qed.

(** X7. In a store whose entries have pairwise different ids, removing the
    id of an entry takes out exactly one entry, and the ids that remain are
    still pairwise different. *)
Theorem X7_remove_takes_one_when_ids_differ :
  forall (st : Main.store) (id : jsstring),
    NoDup (map Ledger.id_of (Main.get_history st)) ->
    (exists item, In item (Main.get_history st) /\ Spec.has_id id item) ->
    let st' := fst (Main.delete_history_item st id) in
    S (length (Main.get_history st')) = length (Main.get_history st) /\
    NoDup (map Ledger.id_of (Main.get_history st')).
Proof.
  intros st id Hnd Hex st'. unfold st'. rewrite get_history_delete. split.
  - apply remove_one_of_unique; assumption.
  - clear Hex. induction (Main.get_history st) as [|x l IH]; [constructor|].
    cbn [map] in Hnd. apply NoDup_cons_iff in Hnd as [Hx Hnd].
    cbn [filter].
    destruct (negb (strict_eq_str (lookup (lit "id") x) id));
      [|exact (IH Hnd)].
    cbn [map]. apply NoDup_cons; [|exact (IH Hnd)].
    intros Hin. apply Hx. apply in_map_iff in Hin as (y & Hy & Hyin).
    apply filter_In in Hyin. apply in_map_iff. exists y. tauto.
Qed.

(* ================================================================== *)
(** * Further properties of the close handler                          *)
(* ================================================================== *)

Lemma generic_failure_truthy :
  truthy (Some (JStr Main.generic_failure)) = true.
Proof. reflexivity. Qed.

Lemma or_else_truthy (a : value) (b : json) :
  truthy (Some b) = true -> truthy (Some (or_else a b)) = true.
Proof.
  intros Hb. unfold or_else. destruct a as [x|]; [|exact Hb].
  destruct (truthy (Some x)) eqn:E; [exact E | exact Hb].
Qed.

Lemma on_close_settlement (outputFile stdout stderr : jsstring)
  (code : option Z) :
  match Main.on_close outputFile stdout stderr code with
  | Main.Resolve result => truthy (Spec.member "success" result) = true
  | Main.Reject (Error message) => truthy (Some message) = true
  end.
Proof.
  unfold Main.on_close.
  destruct (JSON.parse (trim stdout)) as [result | e]; cbn [bind try_catch].
  - destruct result as [| b | m e | s | items | members];
      cbn [get_prop bind try_catch truthy or_else new_Error toString_throws];
      try reflexivity.
    + destruct code as [[| |]|]; try reflexivity;
        destruct (truthy_str (Main.errorLines stderr)) eqn:E;
        try reflexivity; destruct (Main.errorLines stderr); try discriminate;
        reflexivity.
    + destruct (truthy (lookup (lit "success") members)) eqn:Hs;
        cbn [try_catch]; [exact Hs|].
      cbn [bind]. unfold new_Error.
      destruct (toString_throws
                  (or_else (lookup (lit "error") members)
                           (JStr Main.generic_failure))); cbn [bind try_catch].
      * destruct code as [[| |]|]; try reflexivity;
          destruct (truthy_str (Main.errorLines stderr)) eqn:E;
          try reflexivity; destruct (Main.errorLines stderr);
          try discriminate; reflexivity.
      * apply or_else_truthy. reflexivity.
  - destruct code as [[| |]|]; try reflexivity;
      destruct (truthy_str (Main.errorLines stderr)) eqn:E;
      try reflexivity; destruct (Main.errorLines stderr); try discriminate;
      reflexivity.
Qed.

(** X8. Whenever a generation resolves, the value it resolves with has a
    truthy success flag, and whenever it rejects, the argument of the error
    is truthy (for a string: not empty). So the renderer never meets a
    resolved result whose [success] is falsy, nor an error made from a
    falsy argument. *)
Theorem X8_settlement_is_never_hollow :
  forall (host : Main.Host) (st : Main.store) (now : N) (mainWindow : bool)
         (o : Main.options) (proc : Main.child),
    match Spec.outcome_of (Main.generate_tts st now mainWindow o proc) with
    | Main.Resolve result => truthy (Spec.member "success" result) = true
    | Main.Reject (Error message) => truthy (Some message) = true
    end.
Proof.
  intros host st now mainWindow o proc.
  rewrite outcome_of_run. apply on_close_settlement.
Qed.

Section MoreOutcome.
Context {host : Main.Host}.
Variables (st : Main.store) (now : N) (mainWindow : bool) (o : Main.options).

Local Abbreviation run proc := (Main.generate_tts st now mainWindow o proc).

(** X9. When the trimmed stdout buffer parses as a JSON value whose success
    flag is falsy or absent and whose error field is a string that is not
    empty, the generation fails with exactly that string, whatever the exit
    code and whatever came on stderr. *)
Theorem X9_reported_error_is_surfaced_verbatim :
  forall (proc : Main.child) (result : json) (message : jsstring),
    JSON.parse (trim (Spec.stdout_buffer proc)) = Normal result ->
    truthy (Spec.member "success" result) = false ->
    Spec.member "error" result = Some (JStr message) ->
    message <> [] ->
    Spec.Failure (Spec.outcome_of (run proc)) message.
Proof.
  intros proc result message Hparse Hflag Herr Hne. unfold Spec.Failure.
  rewrite outcome_of_run.
  assert (Hnull : result <> JNull) by (intros ->; discriminate Herr).
  assert (Hor : or_else (Spec.member "error" result)
                        (JStr Main.generic_failure) = JStr message).
  { rewrite Herr. unfold or_else. cbn [truthy].
    destruct message; [congruence | reflexivity]. }
  rewrite (on_close_reported_failure _ _ _ _ _ Hparse Hnull Hflag);
    rewrite Hor; reflexivity.
Qed.

End MoreOutcome.

(* ================================================================== *)
(** * Further properties of the stderr handler                         *)
(* ================================================================== *)

Lemma split_lines_cons (s : jsstring) :
  exists l ls, split_lines s = l :: ls.
Proof.
  destruct s as [|c r]; simpl; [eauto|].
  destruct (c =? 10)%N; [eauto|].
  destruct (split_lines r); eauto.
Qed.

(** Splitting distributes over a newline. *)
Lemma split_lines_app (x y : jsstring) :
  split_lines (x ++ 10%N :: y) = split_lines x ++ split_lines y.
Proof.
  induction x as [|c x IH]; [reflexivity|].
  cbn [app split_lines]. rewrite IH.
  destruct (c =? 10)%N; [reflexivity|].
  destruct (split_lines_cons x) as (l & ls & E). rewrite E. reflexivity.
Qed.

Lemma split_lines_no_newline (s : jsstring) :
  Forall (fun l => ~ In 10%N l) (split_lines s).
Proof.
  induction s as [|c r IH]; simpl.
  - constructor; [tauto | constructor].
  - destruct (N.eqb_spec c 10).
    + constructor; [simpl; tauto | exact IH].
    + destruct (split_lines r) as [|l ls]; inversion IH; subst.
      * constructor; [simpl; intuition congruence | constructor].
      * constructor; [simpl; intuition congruence | assumption].
Qed.

Lemma split_lines_one (l : jsstring) :
  ~ In 10%N l -> split_lines l = [l].
Proof.
  induction l as [|c l IH]; intros Hl; [reflexivity|].
  cbn [split_lines]. destruct (N.eqb_spec c 10) as [-> | _].
  - exfalso. apply Hl. left. reflexivity.
  - rewrite IH; [reflexivity|]. intros H. apply Hl. right. exact H.
Qed.

(** The lines of a text made of lines with a newline after each. *)
Lemma split_with_newlines (ls : list jsstring) :
  Forall (fun l => ~ In 10%N l) ls ->
  split_lines (Spec.with_newlines ls) = ls ++ [[]].
Proof.
  induction 1 as [|l ls Hl _ IH]; [reflexivity|].
  unfold Spec.with_newlines in *. cbn [map concat].
  rewrite <- app_assoc. cbn [app].
  rewrite split_lines_app, IH, (split_lines_one l Hl). reflexivity.
Qed.

Lemma filter_forall {A} (P : A -> Prop) (f : A -> bool) (l : list A) :
  Forall P l -> Forall P (filter f l).
Proof.
  intros H. apply Forall_forall. intros x Hx. apply filter_In in Hx.
  rewrite Forall_forall in H. exact (H x (proj1 Hx)).
Qed.

Lemma flat_map_split_no_newline (chunks : list jsstring) :
  Forall (fun l => ~ In 10%N l) (flat_map split_lines chunks).
Proof.
  induction chunks as [|c chunks IH]; [constructor|].
  cbn [flat_map]. apply Forall_app. split;
    [apply split_lines_no_newline | exact IH].
Qed.

Section FailureMessage.
Context {host : Main.Host}.
Variables (st : Main.store) (now : N) (mainWindow : bool) (o : Main.options).

Local Abbreviation run proc := (Main.generate_tts st now mainWindow o proc).

(** X10. From the stderr stream to the failure message: when parsing the
    trimmed stdout fails and the exit code is not 0 (and no stderr line is
    the JSON text [null]), the message is made of the stderr lines that are
    not blank, not JSON and not noise, in their order, joined by newlines
    and trimmed; when nothing is left it is the generic message. No line
    that is JSON, progress or not, ever reaches it. *)
Theorem X10_failure_message_from_stderr_lines :
  forall (proc : Main.child) (e : exn),
    JSON.parse (trim (Spec.stdout_buffer proc)) = Throw e ->
    Main.exit_code proc <> Some 0%Z ->
    let lines := flat_map split_lines (Main.stderr_data proc) in
    Forall (fun l => JSON.parse l <> Normal JNull) lines ->
    let kept :=
      filter Main.keep_error_line (filter Spec.diagnostic lines) in
    Spec.Failure (Spec.outcome_of (run proc))
      (if truthy_str (trim (join [10%N] kept))
       then trim (join [10%N] kept)
       else lit "TTS generation failed") /\
    (forall l, In l kept -> Spec.is_json l = false).
Proof.
  intros proc e Hparse Hcode lines Hnull kept. split.
  - unfold Spec.Failure.
    rewrite outcome_of_run, (on_close_unparsed _ _ _ _ _ Hparse).
    assert (E : Main.errorLines (Spec.diagnostic_text mainWindow proc) =
                trim (join [10%N] kept)).
    { unfold Main.errorLines, Spec.diagnostic_text.
      rewrite (stderr_chunks_spec _ _ _ Hnull). cbn [Main.stderr app].
      rewrite split_with_newlines
        by (apply filter_forall, flat_map_split_no_newline).
      rewrite filter_app. cbn [filter].
      replace (Main.keep_error_line []) with false by reflexivity.
      rewrite app_nil_r. reflexivity. }
    rewrite E.
    destruct (Main.exit_code proc) as [[| |]|]; try reflexivity. congruence.
  - intros l Hl. unfold kept in Hl.
    apply filter_In in Hl as [Hl _]. apply filter_In in Hl as [_ Hd].
    unfold Spec.diagnostic in Hd. apply andb_true_iff in Hd as [_ Hd].
    apply negb_true_iff in Hd. exact Hd.
Qed.

End FailureMessage.

Lemma stderr_on_line_grows (mainWindow : bool) (s : Main.stderr_state)
  (line : jsstring) :
  exists text events,
    Main.stderr (Main.stderr_on_line mainWindow s line) =
      Main.stderr s ++ text /\
    Main.sent (Main.stderr_on_line mainWindow s line) =
      Main.sent s ++ events /\
    (mainWindow = false -> events = []).
Proof.
  unfold Main.stderr_on_line.
  assert (Same : exists text events,
             Main.stderr s = Main.stderr s ++ text /\
             Main.sent s = Main.sent s ++ events /\
             (mainWindow = false -> events = [])).
  { exists [], []. rewrite !app_nil_r. auto. }
  assert (More : exists text events,
             Main.stderr s ++ line ++ [10%N] = Main.stderr s ++ text /\
             Main.sent s = Main.sent s ++ events /\
             (mainWindow = false -> events = [])).
  { exists (line ++ [10%N]), []. rewrite !app_nil_r. auto. }
  destruct (truthy_str (trim line)); [|exact Same].
  destruct (JSON.parse line) as [v | e]; cbn [bind try_catch];
    [|exact More].
  destruct v; cbn [get_prop bind try_catch strict_eq_str andb];
    try exact Same; try exact More.
  destruct (strict_eq_str (lookup (lit "type") members) (lit "progress"));
    cbn [andb]; [|exact Same].
  destruct mainWindow; cbn [try_catch Main.stderr Main.sent]; [|exact Same].
  exists [], [lookup (lit "data") members]. rewrite app_nil_r.
  split; [reflexivity|]. split; [reflexivity | discriminate].
Qed.

Lemma stderr_lines_grow (mainWindow : bool) (lines : list jsstring) :
  forall s : Main.stderr_state,
  exists text events,
    Main.stderr (fold_left (Main.stderr_on_line mainWindow) lines s) =
      Main.stderr s ++ text /\
    Main.sent (fold_left (Main.stderr_on_line mainWindow) lines s) =
      Main.sent s ++ events /\
    (mainWindow = false -> events = []).
Proof.
  induction lines as [|l lines IH]; intros s.
  - exists [], []. rewrite !app_nil_r. auto.
  - cbn [fold_left].
    destruct (stderr_on_line_grows mainWindow s l) as (t1 & e1 & H1 & H2 & H3).
    destruct (IH (Main.stderr_on_line mainWindow s l))
      as (t2 & e2 & H4 & H5 & H6).
    exists (t1 ++ t2), (e1 ++ e2).
    rewrite H4, H5, H1, H2, !app_assoc.
    split; [reflexivity|]. split; [reflexivity|].
    intros Hw. rewrite (H3 Hw), (H6 Hw). reflexivity.
Qed.

(** X11. The stderr handler only ever adds: after any chunks, of any
    content, the diagnostic text begins with what it was and the progress
    events sent begin with those sent before, in the same order. Without a
    window nothing is sent. *)
Theorem X11_stderr_handler_only_appends :
  forall (mainWindow : bool) (chunks : list jsstring)
         (s : Main.stderr_state),
    exists text events,
      Main.stderr (fold_left (Main.stderr_on_data mainWindow) chunks s) =
        Main.stderr s ++ text /\
      Main.sent (fold_left (Main.stderr_on_data mainWindow) chunks s) =
        Main.sent s ++ events /\
      (mainWindow = false -> events = []).
Proof.
  intros mainWindow chunks. induction chunks as [|c chunks IH]; intros s.
  - exists [], []. cbn. rewrite !app_nil_r. auto.
  - cbn [fold_left].
    destruct (stderr_lines_grow mainWindow (split_lines c) s)
      as (t1 & e1 & H1 & H2 & H3).
    fold (Main.stderr_on_data mainWindow s c) in H1, H2.
    destruct (IH (Main.stderr_on_data mainWindow s c))
      as (t2 & e2 & H4 & H5 & H6).
    exists (t1 ++ t2), (e1 ++ e2).
    rewrite H4, H5, H1, H2, !app_assoc.
    split; [reflexivity|]. split; [reflexivity|].
    intros Hw. rewrite (H3 Hw), (H6 Hw). reflexivity.
Qed.

Lemma stderr_on_blank_line (mainWindow : bool) (s : Main.stderr_state) :
  Main.stderr_on_line mainWindow s [] = s.
Proof. reflexivity. Qed.

(** X12. Chunks that each end with a newline are handled exactly as their
    concatenation in one chunk: where the stream is cut does not matter as
    long as it is cut after newlines. *)
Theorem X12_chunks_cut_at_newlines_do_not_matter :
  forall (mainWindow : bool) (chunks : list jsstring)
         (s : Main.stderr_state),
    Forall (fun c => exists x, c = x ++ [10%N]) chunks ->
    fold_left (Main.stderr_on_data mainWindow) chunks s =
    Main.stderr_on_data mainWindow s (concat chunks).
Proof.
  intros mainWindow chunks. induction chunks as [|c chunks IH];
    intros s Hall.
  - reflexivity.
  - inversion Hall as [|? ? [x ->] Hrest]; subst.
    cbn [fold_left concat]. rewrite (IH _ Hrest).
    unfold Main.stderr_on_data.
    rewrite <- app_assoc. cbn [app].
    rewrite (split_lines_app x []), (split_lines_app x (concat chunks)).
    rewrite !fold_left_app. cbn [split_lines fold_left].
    rewrite stderr_on_blank_line. reflexivity.
Qed.

(* ================================================================== *)
(** * Further properties of the renderer                               *)
(* ================================================================== *)

Lemma trimStart_fixed (s : jsstring) :
  (forall c r, s = c :: r -> is_whitespace c = false) -> trimStart s = s.
Proof.
  destruct s as [|c r]; [reflexivity|]. intros H. simpl.
  rewrite (H c r eq_refl). reflexivity.
Qed.

Lemma trimStart_head (s : jsstring) (c : N) (r : jsstring) :
  trimStart s = c :: r -> is_whitespace c = false.
Proof.
  induction s as [|x s IH]; simpl; [discriminate|].
  destruct (is_whitespace x) eqn:E; [exact IH|].
  intros [= <- _]. exact E.
Qed.

Lemma trimStart_suffix (s : jsstring) : exists w, s = w ++ trimStart s.
Proof.
  induction s as [|x s (w & Hw)]; simpl; [exists []; reflexivity|].
  destruct (is_whitespace x).
  - exists (x :: w). simpl. congruence.
  - exists []. reflexivity.
Qed.

(** Trimming a trimmed string changes nothing. *)
Lemma trim_idempotent (s : jsstring) : trim (trim s) = trim s.
Proof.
  unfold trim. set (t := trimStart s).
  assert (Ht : forall c r, t = c :: r -> is_whitespace c = false)
    by (intros c r; apply trimStart_head).
  assert (Hstart : trimStart (trimEnd t) = trimEnd t).
  { apply trimStart_fixed. intros c r Hr.
    destruct (trimStart_suffix (rev t)) as (w & Hw).
    apply (f_equal (@rev N)) in Hw. rewrite rev_involutive, rev_app_distr in Hw.
    fold (trimEnd t) in Hw. rewrite Hr in Hw. simpl in Hw.
    exact (Ht c _ Hw). }
  rewrite Hstart. unfold trimEnd. rewrite rev_involutive.
  rewrite (trimStart_fixed (trimStart (rev t))); [reflexivity|].
  intros c r. apply trimStart_head.
Qed.

Lemma has_text_iff (s : jsstring) :
  (0 <? length s)%nat = truthy_str s.
Proof. destruct s; reflexivity. Qed.

Section MoreValidation.
Context {host : Main.Host}.
Variables (st : Main.store) (now : N) (mainWindow : bool)
          (proc : Main.child).

Local Abbreviation click app f :=
  (Renderer.generateTTS app f st now mainWindow proc).

(** What a click that starts a generation has checked and sent. *)
Lemma started_inversion (app : Renderer.EcloApp) (f : Renderer.form)
  (call : Main.spawn_call) (progress : list value) (out : Main.outcome) :
  click app f = Renderer.Started call progress out ->
  trim (Renderer.tts_text f) <> [] /\
  (exists v, Renderer.selectedVoice app = Some v) /\
  (exists o, Renderer.generateTTS_request app f = Renderer.Invoke o /\
             Main.text o = trim (Renderer.tts_text f) /\
             (call, progress, out) =
             Main.generate_tts st now mainWindow o proc).
Proof.
  unfold Renderer.generateTTS, Renderer.generateTTS_request.
  destruct (truthy_str (trim (Renderer.tts_text f))) eqn:Ht;
    cbn [negb]; [|discriminate].
  apply truthy_str_true in Ht.
  destruct (Renderer.selectedVoice app) as [v|]; [|discriminate].
  intros H. split; [exact Ht|]. split; [eauto|].
  destruct (Renderer.type v); cbn in H; injection H as <- <- <-;
    eexists; (split; [reflexivity|]); split; reflexivity.
Qed.

(** X13. For an engine that needs a voice (cloning or presets) the button
    and the handler agree: the generate button is enabled exactly when a
    click on it starts a generation. *)
Theorem X13_button_agrees_with_start_when_voice_needed :
  forall (app : Renderer.EcloApp) (caps : Renderer.capabilities)
         (f : Renderer.form),
    Renderer.currentModelCapabilities app = Some caps ->
    Registry.requiresVoice caps = true ->
    (Renderer.updateGenerateButtonState app f = false <->
     exists call progress out,
       click app f = Renderer.Started call progress out).
Proof.
  intros app caps f Hcaps Hreq.
  unfold Renderer.updateGenerateButtonState. rewrite Hcaps.
  unfold Registry.requiresVoice in Hreq. rewrite Hreq. cbn [negb].
  rewrite has_text_iff, negb_false_iff, andb_true_iff. split.
  - intros [Hv Ht]. destruct (Renderer.selectedVoice app) as [v|] eqn:Ev;
      [|discriminate].
    apply truthy_str_true in Ht.
    destruct (voiced_request_spawns st now mainWindow proc app f v Ht Ev)
      as (call & Hcall).
    destruct (click app f) as [a | call' progress out]; [discriminate|].
    eauto.
  - intros (call & progress & out & H).
    apply started_inversion in H as (Ht & (v & Hv) & _).
    rewrite Hv. split; [reflexivity | apply truthy_str_true; exact Ht].
Qed.

(** X14. The engine is never started with a blank text or with a text that
    has whitespace around it: the argument after [--text] is the text of the
    form, trimmed, and it is not empty. *)
Theorem X14_spawned_text_is_trimmed_and_not_empty :
  forall (app : Renderer.EcloApp) (f : Renderer.form)
         (call : Main.spawn_call) (progress : list value)
         (out : Main.outcome),
    click app f = Renderer.Started call progress out ->
    exists t,
      nth_error (Main.args call) 3 = Some (lit "--text") /\
      nth_error (Main.args call) 4 = Some t /\
      t = trim (Renderer.tts_text f) /\ t <> [] /\ trim t = t.
Proof.
  intros app f call progress out H.
  apply started_inversion in H as (Ht & _ & (o & _ & Htext & Hrun)).
  exists (trim (Renderer.tts_text f)).
  unfold Main.generate_tts in Hrun. injection Hrun as -> _ _.
  split; [reflexivity|]. split; [cbn; rewrite Htext; reflexivity|].
  split; [reflexivity|]. split; [exact Ht | apply trim_idempotent].
Qed.

End MoreValidation.

(** X15. The text kept in the history is the text itself when it has at
    most 100 code units, and otherwise its first 100 code units followed by
    three dots: never more than 103 code units, and always beginning like
    the text. *)
Theorem X15_preview_is_bounded_and_faithful :
  forall text : jsstring,
    length (Session.preview text) <= 103 /\
    firstn 100 (Session.preview text) = firstn 100 text /\
    (length text <= 100 -> Session.preview text = text) /\
    (100 < length text ->
     Session.preview text = firstn 100 text ++ lit "..." /\
     length (Session.preview text) = 103).
Proof.
  intros text. unfold Session.preview.
  destruct (Nat.ltb_spec 100 (length text)) as [Hlong | Hshort].
  - assert (Hlen : length (firstn 100 text ++ lit "...") = 103).
    { rewrite length_app, length_firstn.
      replace (Nat.min 100 (length text)) with 100 by lia. reflexivity. }
    split; [lia|]. split; [|split; [lia | auto]].
    rewrite firstn_app, length_firstn.
    replace (100 - Nat.min 100 (length text)) with 0 by lia.
    rewrite firstn_O, app_nil_r, firstn_firstn.
    reflexivity.
  - rewrite app_nil_r. repeat rewrite (firstn_all2 text Hshort).
    split; [lia|]. split; [reflexivity|]. split; [reflexivity | lia].
Qed.

Section Recording.
Context {host : Main.Host}.
Variables (st : Main.store) (now : N) (mainWindow : bool)
          (proc : Main.child).


End Recording.

Lemma split_on_cons (sep : N) (s : jsstring) :
  exists l ls, Session.split_on sep s = l :: ls.
Proof.
  destruct s as [|c r]; simpl; [eauto|].
  destruct (c =? sep)%N; [eauto|].
  destruct (Session.split_on sep r); eauto.
Qed.

(** The last piece of a split is what follows the last separator. *)
Lemma last_split_on_strong (sep : N) (s : jsstring) :
  exists dir,
    s = dir ++ last (Session.split_on sep s) [] /\
    (dir = [] <-> tl (Session.split_on sep s) = []) /\
    (dir = [] \/ exists d, dir = d ++ [sep]) /\
    ~ In sep (last (Session.split_on sep s) []).
Proof.
  induction s as [|c s (dir & Hs & Hiff & Hdir & Hlast)].
  - exists []. simpl. tauto.
  - cbn [Session.split_on].
    destruct (split_on_cons sep s) as (l & ls & E). rewrite E in *.
    destruct (N.eqb_spec c sep) as [-> | Hc].
    + exists (sep :: dir). split; [|split; [|split]].
      * cbn [last app]. rewrite Hs at 1. reflexivity.
      * cbn [tl]. split; discriminate.
      * right. destruct Hdir as [-> | (d & ->)];
          [exists [] | exists (sep :: d)]; reflexivity.
      * exact Hlast.
    + cbn [tl] in Hiff. destruct ls as [|l' ls'].
      * assert (Hd : dir = []) by (apply Hiff; reflexivity). subst dir.
        exists []. cbn [last app tl] in *. split; [|split; [|split]].
        -- congruence.
        -- tauto.
        -- left. reflexivity.
        -- intros [H | H]; [congruence | exact (Hlast H)].
      * assert (Hd : dir <> []) by (intros H; apply Hiff in H; discriminate).
        exists (c :: dir). cbn [last app tl] in *.
        split; [|split; [|split]].
        -- rewrite Hs at 1. reflexivity.
        -- split; discriminate.
        -- right. destruct Hdir as [-> | (d & ->)]; [congruence|].
           exists (c :: d). reflexivity.
        -- exact Hlast.
Qed.

Lemma last_split_on (sep : N) (s : jsstring) :
  exists dir,
    s = dir ++ last (Session.split_on sep s) [] /\
    (dir = [] \/ exists d, dir = d ++ [sep]) /\
    ~ In sep (last (Session.split_on sep s) []).
Proof.
  destruct (last_split_on_strong sep s) as (dir & H1 & _ & H2 & H3).
  exists dir. auto.
Qed.

(** X17. Choosing a custom voice file names the voice after the part of
    the path that follows its last slash (the whole path when it has no
    slash), and keeps the path itself as the sample to send. *)
Theorem X17_custom_voice_is_named_after_the_file :
  forall (app : Renderer.EcloApp) (filePath : jsstring),
    exists v dir,
      Renderer.selectedVoice (Session.selectCustomVoice app filePath)
        = Some v /\
      Renderer.type v = Renderer.custom /\
      Renderer.path v = filePath /\
      filePath = dir ++ Renderer.name v /\
      (dir = [] \/ exists d, dir = d ++ [47%N]) /\
      ~ In 47%N (Renderer.name v).
Proof.
  intros app filePath.
  destruct (last_split_on 47 filePath) as (dir & Hs & Hdir & Hlast).
  eexists. exists dir. split; [reflexivity|].
  cbn [Renderer.type Renderer.path Renderer.name].
  repeat split; assumption.
Qed.

Section PresetVoices.
Context {host : Main.Host}.

(** X18. Choosing any of the eight preset voices and then asking for a
    text makes the renderer call [generate-tts] with that voice's own
    bundled sample ([<voicesDir>/<id>.wav]) and its own reference
    transcript, together with the trimmed text. *)
Theorem X18_preset_voice_sends_its_own_sample_and_transcript :
  forall (app : Renderer.EcloApp) (f : Renderer.form)
         (p : Renderer.preset_voice),
    Renderer.preset_table app = Renderer.presetVoices_table ->
    In p Renderer.presetVoices_table ->
    trim (Renderer.tts_text f) <> [] ->
    Renderer.generateTTS_request (Session.selectPresetVoice app p) f =
    Renderer.Invoke
      {| Main.text := trim (Renderer.tts_text f);
         Main.language := Renderer.tts_language f;
         Main.voiceSamplePath :=
           Some (Main.get_voice_sample_path (Renderer.preset_id p));
         Main.referenceText := Some (Renderer.refText p);
         Main.instructText :=
           Renderer.or_null (trim (Renderer.tts_style f));
         Main.speed := Renderer.tts_speed f |}.
Proof.
  intros app f p Htable Hin Htext.
  assert (Href : Renderer.getPresetReferenceText
                   (Session.selectPresetVoice app p)
                   (Renderer.preset_id p) = Some (Renderer.refText p)).
  { unfold Renderer.getPresetReferenceText, Session.selectPresetVoice,
      Session.with_voice.
    cbn [Renderer.preset_table]. rewrite Htable.
    repeat (destruct Hin as [<- | Hin]; [vm_compute; reflexivity|]).
    destruct Hin. }
  unfold Renderer.generateTTS_request.
  apply truthy_str_true in Htext. rewrite Htext. cbn [negb].
  unfold Session.selectPresetVoice, Session.with_voice in *.
  cbn [Renderer.selectedVoice Renderer.type Renderer.id].
  rewrite Href. reflexivity.
Qed.

End PresetVoices.

(** X19. Of all engine ids, known to the table or not, the only one whose
    current capabilities do not call for a voice is Kokoro's: every other
    id, a custom model path included, gets capabilities with voice cloning
    or preset voices. *)
Theorem X19_only_kokoro_needs_no_voice :
  forall ttsModel : jsstring,
    Registry.requiresVoice
      (Registry.updateCurrentModelCapabilities Registry.available_models
         ttsModel) = false
    <-> ttsModel = Registry.kokoro_id.
Proof.
  intros ttsModel.
  unfold Registry.updateCurrentModelCapabilities, Registry.available_models.
  cbn [find Registry.id].
  destruct (str_eqb Registry.cosyvoice_id ttsModel) eqn:E1.
  { apply str_eqb_eq in E1. subst ttsModel.
    split; [discriminate | distinct_literals]. }
  destruct (str_eqb Registry.outetts_id ttsModel) eqn:E2.
  { apply str_eqb_eq in E2. subst ttsModel.
    split; [discriminate | distinct_literals]. }
  destruct (str_eqb Registry.kokoro_id ttsModel) eqn:E3.
  { apply str_eqb_eq in E3. subst ttsModel.
    split; reflexivity. }
  assert (Hk : ttsModel <> Registry.kokoro_id).
  { intros ->. rewrite str_eqb_refl in E3. discriminate. }
  destruct (str_eqb (lit "custom") ttsModel);
    (split; [discriminate | intros H; contradiction]).
Qed.

(* ================================================================== *)
(** * The further properties on concrete runs                          *)
(* ================================================================== *)

(** X1 on an item that came with an id of its own. *)
Lemma X1_witness :
  let e := snd (Main.add_history_item Sample.settings 5 (lit "abc")
                  (lit "2024-01-01T00:00:00.000Z") MoreRuns.stale_item) in
  lookup (lit "id") e = Some (JStr (lit "5-abc")) /\
  lookup (lit "text") e = Some (JStr (lit "hi")).
Proof.
  intros e.
  destruct (X1_new_entry_overrides_id_and_timestamp_only
              Sample.settings 5 (lit "abc")
              (lit "2024-01-01T00:00:00.000Z") MoreRuns.stale_item)
    as (Hid & _ & Hother & _).
  split; [exact Hid|].
  apply (Hother (lit "text")); distinct_literals.
Defined.

(** X3 on three appends to the empty store. *)
Lemma X3_witness :
  Main.get_history MoreRuns.three =
  rev (map Spec.entry_of (Sample.calls 3)).
Proof.
  destruct (X3_appends_keep_the_first_hundred Sample.settings
              (Sample.calls 3)) as (_ & H).
  - simpl. lia.
  - rewrite app_nil_r in H. apply H. simpl. lia.
Defined.

(** X4 on a store of three entries. *)
Lemma X4_witness :
  Main.get_history
    (fst (Main.delete_history_item
            (Spec.append MoreRuns.three (Sample.call 7))
            (MoreRuns.id_of_call 7))) =
  Main.get_history MoreRuns.three.
Proof.
  destruct (X4_append_then_remove MoreRuns.three (Sample.call 7))
    as (_ & H).
  - vm_compute. lia.
  - intros item Hin Hid. vm_compute in Hin.
    destruct Hin as [<- | [<- | [<- | []]]]; vm_compute in Hid;
      discriminate Hid.
  - apply H. vm_compute. lia.
Defined.

(** X6 on appends, a removal, a clear and an append. *)
Lemma X6_witness :
  length (Main.get_history (Ledger.run Sample.settings MoreRuns.ops)) <= 100
  /\ Forall Ledger.stamped
       (Main.get_history (Ledger.run Sample.settings MoreRuns.ops)).
Proof.
  apply X6_ledger_keeps_cap_and_stamps.
  - simpl. lia.
  - constructor.
Defined.

(** X7 on a store of three entries, removing the middle one. *)
Lemma X7_witness :
  S (length (Main.get_history
               (fst (Main.delete_history_item MoreRuns.three
                       (MoreRuns.id_of_call 1))))) = 3.
Proof.
  destruct (X7_remove_takes_one_when_ids_differ MoreRuns.three
              (MoreRuns.id_of_call 1)) as (H & _).
  - vm_compute.
    repeat (apply NoDup_cons;
            [intros H; simpl in H;
             repeat (destruct H as [H | H]; [discriminate H|]); exact H|]).
    apply NoDup_nil.
  - exists (Spec.entry_of (Sample.call 1)). split.
    + right. left. reflexivity.
    + reflexivity.
  - exact H.
Defined.

(** X9 on the reported failure of the specification, with exit code 0. *)
Lemma X9_witness :
  Spec.Failure
    (Spec.outcome_of (Runs.run (Sample.process [MoreRuns.reported] [] 0)))
    (lit "reference audio required").
Proof.
  apply (X9_reported_error_is_surfaced_verbatim
           (host := Sample.host) Sample.settings Runs.now true
           Sample.options (Sample.process [MoreRuns.reported] [] 0)
           (JObj [(lit "success", JBool false);
                  (lit "error", JStr (lit "reference audio required"))]));
    try reflexivity.
  distinct_literals.
Defined.

(** X10 on the noisy stderr of the specification followed by a JSON line. *)
Lemma X10_witness :
  Spec.Failure
    (Spec.outcome_of
       (Runs.run (Sample.process [] [MoreRuns.noisy_with_json] 1)))
    (lit "real error: disk full").
Proof.
  destruct (X10_failure_message_from_stderr_lines
              (host := Sample.host) Sample.settings Runs.now true
              Sample.options
              (Sample.process [] [MoreRuns.noisy_with_json] 1) SyntaxError)
    as (H & _).
  - reflexivity.
  - discriminate.
  - vm_compute. repeat constructor; discriminate.
  - exact H.
Defined.

(** X11 on two chunks without a window. *)
Lemma X11_witness :
  exists text,
    Main.stderr (fold_left (Main.stderr_on_data false) MoreRuns.two_chunks
                   MoreRuns.empty_state) = text /\
    Main.sent (fold_left (Main.stderr_on_data false) MoreRuns.two_chunks
                 MoreRuns.empty_state) = [].
Proof.
  destruct (X11_stderr_handler_only_appends false MoreRuns.two_chunks
              MoreRuns.empty_state) as (text & events & H1 & H2 & H3).
  exists text. split; [exact H1|].
  rewrite H2, (H3 eq_refl). reflexivity.
Defined.

(** X12 on a progress line and a line of text in two chunks. *)
Lemma X12_witness :
  fold_left (Main.stderr_on_data true) MoreRuns.two_chunks
    MoreRuns.empty_state =
  Main.stderr_on_data true MoreRuns.empty_state
    (concat MoreRuns.two_chunks).
Proof.
  apply X12_chunks_cut_at_newlines_do_not_matter.
  repeat (constructor; [eexists; reflexivity|]). constructor.
Defined.

(** X13 on OuteTTS with a custom voice and a text. *)
Lemma X13_witness :
  exists call progress out,
    Runs.click MoreRuns.voiced MoreRuns.padded =
    Renderer.Started call progress out.
Proof.
  apply (proj1 (X13_button_agrees_with_start_when_voice_needed
                  (host := Sample.host) Sample.settings Runs.now true
                  (Sample.process [] [] 0)
                  MoreRuns.voiced Sample.outetts MoreRuns.padded
                  eq_refl eq_refl)).
  reflexivity.
Defined.

(** X14 on a text with spaces around it. *)
Lemma X14_witness :
  exists t,
    nth_error
      (Main.args
         (Main.spawn_tts (host := Sample.host) Sample.settings Runs.now
            {| Main.text := lit "Hello";
               Main.language := lit "en";
               Main.voiceSamplePath := Some (lit "/home/me/voices/sample.wav");
               Main.referenceText := None;
               Main.instructText := None;
               Main.speed := Num 1 0 |})) 4 = Some t /\
    t = lit "Hello".
Proof.
  destruct (X14_spawned_text_is_trimmed_and_not_empty
              (host := Sample.host) Sample.settings Runs.now true
              (Sample.process [] [] 0) MoreRuns.voiced MoreRuns.padded
              _ _ _ eq_refl) as (t & _ & H4 & Ht & _).
  exists t. split; [exact H4 | exact Ht].
Defined.

(** X15 on a short text and on a text of 150 code units. *)
Lemma X15_witness :
  Session.preview (lit "Hello") = lit "Hello" /\
  length (Session.preview MoreRuns.long_text) = 103.
Proof.
  split.
  - apply (X15_preview_is_bounded_and_faithful (lit "Hello")).
    simpl. lia.
  - apply (X15_preview_is_bounded_and_faithful MoreRuns.long_text).
    vm_compute. lia.
Defined.

(** X17 on a path with directories. *)
Lemma X17_witness :
  exists v,
    Renderer.selectedVoice MoreRuns.voiced = Some v /\
    Renderer.name v = lit "sample.wav" /\
    ~ In 47%N (Renderer.name v).
Proof.
  destruct (X17_custom_voice_is_named_after_the_file
              (Sample.app Sample.outetts) (lit "/home/me/voices/sample.wav"))
    as (v & dir & Hv & _ & _ & _ & _ & Hslash).
  exists v. split; [exact Hv|]. split; [|exact Hslash].
  injection Hv as <-. reflexivity.
Defined.

(** X18 on the first preset voice. *)
Lemma X18_witness :
  exists o,
    Renderer.generateTTS_request (host := Sample.host)
      (Session.selectPresetVoice (Sample.app Sample.outetts) MoreRuns.sora)
      MoreRuns.padded = Renderer.Invoke o /\
    Main.referenceText o = Some (Renderer.refText MoreRuns.sora) /\
    Main.voiceSamplePath o =
      Some (lit "/app/assets/voices/korean_female.wav").
Proof.
  eexists. split.
  - apply (X18_preset_voice_sends_its_own_sample_and_transcript
             (host := Sample.host)).
    + reflexivity.
    + left. reflexivity.
    + distinct_literals.
  - split; reflexivity.
Defined.

(** X19 on Kokoro's id. *)
Lemma X19_witness :
  Registry.requiresVoice
    (Registry.updateCurrentModelCapabilities Registry.available_models
       Registry.kokoro_id) = false.
Proof.
  apply (proj2 (X19_only_kokoro_needs_no_voice Registry.kokoro_id)).
  reflexivity.
Defined.

